(** * AruTradeX batch-predict server: a shallow embedding of [server.py]

    The development follows the source file top to bottom: the TTL cache,
    the candle frames and their normalisation, the 1-minute aggregator, the
    three REST adapters, the feature engine (library path and pandas
    fallback), the two signal strategies and the [batch_predict] loop.

    Conventions used throughout.
    - A Python float is an exact rational ([Q]); an undefined value (NaN,
      None) is [None].  Infinities only arise from a division by zero
      inside [pct_change] and are kept apart ([xnum]).  Rounding is not
      modelled.
    - Instants are integers: nanoseconds since the epoch for candle
      timestamps, microseconds for the cache clock ([datetime]).  Every
      row of a frame has an instant: undefined instants (NaT) are not
      modelled.
    - A raised Python exception is the [Raise] constructor of [result],
      carrying [str(e)]; the wording of library messages is abridged.
    - What the process reads from outside (clock, HTTP replies, files,
      the classifier, pandas_ta, parsing of dates and numbers, the square
      root) is a field of the [Env] record.  The state is the cache
      dictionary and a counter of the effects performed, which indexes
      the clock readings and the replies of network and file system.
    - Frames passed to the feature engine and to the signal strategies
      went through [dropna(subset=[open, high, low, close])] and
      [volume.fillna(0)] in [batch_predict], their only caller; their
      rows are therefore total ([candle]), while frames coming from
      adapters and files may hold undefined cells ([raw_candle]).
    - [str] methods are modelled on ASCII strings. *)

From Stdlib Require Import ZArith QArith Qabs Qround Lia Lqa.
From Stdlib Require Import Ascii.
From stdpp Require Import base option list strings gmap pretty sorting.

Local Open Scope Z_scope.

(** ** Exceptions *)

Inductive result (A : Type) : Type :=
| Ok (a : A)
| Raise (msg : string).
Arguments Ok {A} a.
Arguments Raise {A} msg.

#[global] Instance result_ret : MRet result := λ A a, Ok a.
#[global] Instance result_bind : MBind result := λ A B k r,
  match r with
  | Ok a => k a
  | Raise m => Raise m
  end.
#[global] Instance result_fmap : FMap result := λ A B f r,
  match r with
  | Ok a => Ok (f a)
  | Raise m => Raise m
  end.

(** ** Configuration constants *)

Definition DEFAULT_LIMIT : Z := 300.
Definition SUPPORTED_TFS : list string := ["1m"; "5m"; "15m"; "1h"; "4h"].
Definition CACHE_TTL_SECONDS : Z := 15.

(** [timedelta(seconds=n)] in microseconds, the resolution of [datetime]. *)
Definition timedelta_seconds (n : Z) : Z := n * 1000000.

(** ** Simple in-memory cache

    [_CACHE] maps a key to [(timestamp_utc, payload)].  Both operations
    read the clock; the reading is passed in as [now]. *)

Section cache.
Context {A : Type}.

Definition cache_get (now : Z) (key : string) (c : gmap string (Z * A))
  : option A * gmap string (Z * A) :=
  match c !! key with
  | None => (None, c)
  | Some (ts, payload) =>
      if now - ts >? timedelta_seconds CACHE_TTL_SECONDS
      then (None, delete key c)
      else (Some payload, c)
  end.

Definition cache_set (now : Z) (key : string) (payload : A)
    (c : gmap string (Z * A)) : gmap string (Z * A) :=
  <[key := (now, payload)]> c.
End cache.

(** ** Numbers *)

Definition Qltb (x y : Q) : bool := negb (Qle_bool y x).
Definition Qgtb (x y : Q) : bool := Qltb y x.
Definition Qmax2 (x y : Q) : Q := if Qle_bool x y then y else x.
Definition Qmin2 (x y : Q) : Q := if Qle_bool x y then x else y.
Definition Qsum (l : list Q) : Q := foldr Qplus 0%Q l.
Definition Qmean (l : list Q) : Q := (Qsum l / inject_Z (Z.of_nat (length l)))%Q.

(** A float that may be infinite or undefined: the quotient of two finite
    floats under IEEE rules. *)
Inductive xnum : Type :=
| Fin (q : Q)
| PosInf
| NegInf
| NaN.

Definition xdiv (a b : Q) : xnum :=
  if Qeq_bool b 0 then
    (if Qeq_bool a 0 then NaN else if Qltb 0 a then PosInf else NegInf)
  else Fin (a / b)%Q.

Definition xnum_isna (x : xnum) : bool :=
  match x with NaN => true | _ => false end.

Definition xnum_of_option (o : option Q) : xnum :=
  match o with Some q => Fin q | None => NaN end.

(** ** Strings: the [str] methods the server calls (ASCII). *)

Definition upper_ascii (c : ascii) : ascii :=
  let n := nat_of_ascii c in
  if (97 <=? n)%nat && (n <=? 122)%nat then ascii_of_nat (n - 32) else c.

Fixpoint upper (s : string) : string :=
  match s with
  | EmptyString => EmptyString
  | String c r => String (upper_ascii c) (upper r)
  end.

Definition startswith (s p : string) : bool := String.prefix p s.

Fixpoint contains (sub s : string) : bool :=
  String.prefix sub s ||
  match s with
  | EmptyString => false
  | String _ r => contains sub r
  end.

Fixpoint str_drop (n : nat) (s : string) : string :=
  match n, s with
  | O, _ => s
  | S n', String _ r => str_drop n' r
  | S _, EmptyString => EmptyString
  end.

Fixpoint str_take (n : nat) (s : string) : string :=
  match n, s with
  | S n', String c r => String c (str_take n' r)
  | _, _ => EmptyString
  end.

(** [s.replace(old, new)] for a non-empty [old]; [fuel] bounds the scan by
    the length of [s]. *)
Fixpoint replace_go (fuel : nat) (old new s : string) : string :=
  match fuel with
  | O => s
  | S fuel' =>
      match s with
      | EmptyString => EmptyString
      | String c r =>
          if String.prefix old s
          then new +:+ replace_go fuel' old new (str_drop (String.length old) s)
          else String c (replace_go fuel' old new r)
      end
  end.

Definition replace (old new s : string) : string :=
  replace_go (String.length s) old new s.

(** [s.split(sep, 1)[1] if sep in s else s], for a one-character [sep]. *)
Fixpoint after_first (sep : ascii) (s : string) : option string :=
  match s with
  | EmptyString => None
  | String c r => if Ascii.eqb c sep then Some r else after_first sep r
  end.

Definition split1_tail (sep : ascii) (s : string) : string :=
  default s (after_first sep s).

Definition is_py_space (c : ascii) : bool :=
  let n := nat_of_ascii c in
  (n =? 32)%nat || ((9 <=? n)%nat && (n <=? 13)%nat) ||
  ((28 <=? n)%nat && (n <=? 31)%nat).

Fixpoint lstrip (s : string) : string :=
  match s with
  | String c r => if is_py_space c then lstrip r else s
  | EmptyString => EmptyString
  end.

Definition strip (s : string) : string :=
  String.rev (lstrip (String.rev (lstrip s))).

(** [os.path.basename]: what follows the last slash. *)
Fixpoint basename_go (acc s : string) : string :=
  match s with
  | EmptyString => acc
  | String c r =>
      if Ascii.eqb c "/"%char then basename_go r r else basename_go acc r
  end.

Definition basename (s : string) : string := basename_go s s.

Definition str_in (x : string) (l : list string) : bool :=
  existsb (String.eqb x) l.

(** ** Candle frames

    A [raw_candle] is a row of a frame as an adapter or a file delivers it:
    any of the five numeric cells may be undefined.  A [candle] is a row
    after [dropna(subset=[open, high, low, close])] and
    [volume.fillna(0)]: every cell is defined. *)

Record raw_candle : Type := RawCandle {
  r_timestamp : Z;
  r_open : option Q;
  r_high : option Q;
  r_low : option Q;
  r_close : option Q;
  r_volume : option Q;
}.

Record candle : Type := Candle {
  timestamp : Z;
  open : Q;
  high : Q;
  low : Q;
  close : Q;
  volume : Q;
}.

Definition raw_of (c : candle) : raw_candle :=
  RawCandle (timestamp c) (Some (open c)) (Some (high c)) (Some (low c))
            (Some (close c)) (Some (volume c)).

(** One row through [dropna(subset=OHLC)] then [volume.fillna(0)]. *)
Definition clean_row (r : raw_candle) : option candle :=
  match r_open r, r_high r, r_low r, r_close r with
  | Some o, Some h, Some l, Some c =>
      Some (Candle (r_timestamp r) o h l c (default 0%Q (r_volume r)))
  | _, _, _, _ => None
  end.

Definition clean_frame (df : list raw_candle) : list candle :=
  omap clean_row df.

(** The order of rows by timestamp. *)
Definition ts_le (a b : candle) : Prop := timestamp a ≤ timestamp b.
Definition raw_ts_le (a b : raw_candle) : Prop := r_timestamp a ≤ r_timestamp b.

#[global] Instance ts_le_dec a b : Decision (ts_le a b).
Proof. unfold ts_le. apply _. Defined.
#[global] Instance raw_ts_le_dec a b : Decision (raw_ts_le a b).
Proof. unfold raw_ts_le. apply _. Defined.

(** Sorting by insertion: each row goes in front of the first row that
    is not before it, so rows with equal keys stay in their input order. *)
Section stable_sort.
Context {A : Type} (R : relation A) `{!∀ x y, Decision (R x y)}.

Fixpoint insert_sorted (x : A) (l : list A) : list A :=
  match l with
  | [] => [x]
  | y :: l' => if decide (R x y) then x :: y :: l' else y :: insert_sorted x l'
  end.

Definition stable_sort (l : list A) : list A := foldr insert_sorted [] l.
End stable_sort.

(** [df.sort_values("timestamp")], and the sort [resample] applies to an
    index that is not in order: ascending timestamps, rows with equal
    timestamps in their input order.  ([resample] sorts with a stable kind;
    for [sort_values] pandas promises the order of equal keys of its stable
    kinds only, and the default kind is taken to keep it as well.) *)
Definition sort_values (df : list candle) : list candle := stable_sort ts_le df.
Definition sort_values_raw (df : list raw_candle) : list raw_candle :=
  stable_sort raw_ts_le df.

(** *** Client-supplied windows *)

Record CandleWindow : Type := Window {
  w_timestamp : list string;
  w_open : list (option Q);
  w_high : list (option Q);
  w_low : list (option Q);
  w_close : list (option Q);
  w_volume : option (list (option Q));
}.

Fixpoint zip_rows (ts : list Z) (o h l c v : list (option Q)) : list raw_candle :=
  match ts, o, h, l, c, v with
  | t :: ts', o1 :: o', h1 :: h', l1 :: l', c1 :: c', v1 :: v' =>
      RawCandle t o1 h1 l1 c1 v1 :: zip_rows ts' o' h' l' c' v'
  | _, _, _, _, _, _ => []
  end.

(** [pd.to_datetime] on one string: the instant, or [None] when it raises. *)
Definition parse_datetime (to_datetime : string → option Z) (s : string) : result Z :=
  match to_datetime s with
  | Some t => Ok t
  | None => Raise ("Unknown datetime string format, unable to parse: " +:+ s)
  end.

Section candles_to_df.
(** [pd.to_datetime] on the list of timestamps of a window, with the
    conversion to UTC that follows it (lines 145 to 159).  The call reads
    the list as a whole, with one format and one time-zone awareness for
    all of its strings, so whether it raises and what a string is read as
    depend on the list: [None] when it raises, else the instant that each
    string of this list is read as. *)
Variable to_datetime_list : list string → option (string → Z).

Definition candles_to_df (obj : CandleWindow) : result (list candle) :=
  match to_datetime_list (w_timestamp obj) with
  | None => Raise "Unknown datetime string format, unable to parse"
  | Some read =>
      let ts := read <$> w_timestamp obj in
      let n := length ts in
      (* a missing volume is the scalar None, broadcast over the rows *)
      let vol := default (replicate n None) (w_volume obj) in
      if bool_decide (length (w_open obj) = n ∧ length (w_high obj) = n ∧
                      length (w_low obj) = n ∧ length (w_close obj) = n ∧
                      length vol = n)
      then
        let df := zip_rows ts (w_open obj) (w_high obj) (w_low obj)
                           (w_close obj) vol in
        Ok (sort_values (clean_frame df))
      else Raise "All arrays must be of the same length"
  end.
End candles_to_df.

(** ** Aggregation from 1-minute candles *)

Definition minute_ns : Z := 60 * 1000000000.

Definition offset_map (tf : string) : option Z :=
  if String.eqb tf "5m" then Some (5 * minute_ns)
  else if String.eqb tf "15m" then Some (15 * minute_ns)
  else if String.eqb tf "1h" then Some (60 * minute_ns)
  else if String.eqb tf "4h" then Some (240 * minute_ns)
  else None.

(** The reductions of a resampled column; each skips undefined cells. *)
Definition agg_first (col : list (option Q)) : option Q :=
  head (omap id col).
Definition agg_last (col : list (option Q)) : option Q :=
  last (omap id col).
Definition agg_max (col : list (option Q)) : option Q :=
  match omap id col with
  | [] => None
  | x :: r => Some (foldl Qmax2 x r)
  end.
Definition agg_min (col : list (option Q)) : option Q :=
  match omap id col with
  | [] => None
  | x :: r => Some (foldl Qmin2 x r)
  end.
Definition agg_sum (col : list (option Q)) : Q :=
  Qsum (omap id col).

(** Left edge of the bin of width [w] that holds instant [t]. *)
Definition bin_start (w t : Z) : Z := (t `div` w) * w.

(** [df.resample(rule)]: every bin from the one of the first row to the one
    of the last row, empty ones included, each with its rows in time order. *)
Definition resample (w : Z) (df : list raw_candle) : list (Z * list raw_candle) :=
  let sorted := sort_values_raw df in
  match head sorted, last sorted with
  | Some a, Some b =>
      let lo := bin_start w (r_timestamp a) in
      let hi := bin_start w (r_timestamp b) in
      (λ k, let s := lo + k * w in
            (s, filter (λ r, bin_start w (r_timestamp r) = s) sorted))
        <$> seqZ 0 ((hi - lo) `div` w + 1)
  | _, _ => []
  end.

(** One bin reduced with first/max/min/last/sum, as a row of the
    concatenated frame. *)
Definition ohlcv_reduce (bin : Z * list raw_candle) : raw_candle :=
  let rows := bin.2 in
  RawCandle bin.1
    (agg_first (r_open <$> rows))
    (agg_max (r_high <$> rows))
    (agg_min (r_low <$> rows))
    (agg_last (r_close <$> rows))
    (Some (agg_sum (r_volume <$> rows))).

(** [DataFrame.dropna()] on a five-column frame. *)
Definition row_complete (r : raw_candle) : bool :=
  bool_decide (is_Some (r_open r)) && bool_decide (is_Some (r_high r)) &&
  bool_decide (is_Some (r_low r)) && bool_decide (is_Some (r_close r)) &&
  bool_decide (is_Some (r_volume r)).

Definition resample_ohlcv (w : Z) (df : list raw_candle) : list raw_candle :=
  filter (λ r, row_complete r = true) (ohlcv_reduce <$> resample w df).

(** The [TypeError] of [resample] on an index that is not datetime-typed. *)
Definition resample_type_error : string :=
  "Only valid with DatetimeIndex, TimedeltaIndex or PeriodIndex, "
  +:+ "but got an instance of 'Index'".

(** [datetime_index] tells whether the timestamp column of [df_1m] is
    datetime-typed: [resample] raises on any other index. *)
Definition aggregate_from_1m (datetime_index : bool) (df_1m : list raw_candle)
    (target_tf : string) : result (list raw_candle) :=
  if String.eqb target_tf "1m" then Ok df_1m
  else match offset_map target_tf with
       | None => Raise ("unsupported tf for aggregation: " +:+ target_tf)
       | Some w =>
           if datetime_index then Ok (resample_ohlcv w df_1m)
           else Raise resample_type_error
       end.

(** ** Feature engineering *)

(** What [pandas_ta] exposes to [compute_features].  Each call either raises
    or returns a column; a cell missing from the returned column is
    undefined (a [None] return value is the empty column). *)
Record TaLib : Type := {
  ta_ema : list Q → Z → result (list (option Q));
  ta_rsi : list Q → Z → result (list (option Q));
  ta_atr : list Q → list Q → list Q → Z → result (list (option Q));
}.

(** A row of the feature frame before [dropna]. *)
Record feat_cells : Type := FeatCells {
  c_candle : candle;
  c_ret_1 : xnum;
  c_ema8 : option Q;
  c_ema21 : option Q;
  c_ema50 : option Q;
  c_rsi14 : option Q;
  c_atr14 : option Q;
  c_std5 : option Q;
  c_mom5 : option Q;
}.

(** A row of the feature frame after [dropna]. *)
Record feat_row : Type := FeatRow {
  f_candle : candle;
  ret_1 : xnum;
  ema8 : Q;
  ema21 : Q;
  ema50 : Q;
  rsi14 : Q;
  atr14 : Q;
  std5 : Q;
  mom5 : Q;
}.

Definition dropna_row (r : feat_cells) : option feat_row :=
  if xnum_isna (c_ret_1 r) then None
  else
    match c_ema8 r, c_ema21 r, c_ema50 r, c_rsi14 r, c_atr14 r, c_std5 r, c_mom5 r with
    | Some e8, Some e21, Some e50, Some rsi, Some atr, Some sd, Some mom =>
        Some (FeatRow (c_candle r) (c_ret_1 r) e8 e21 e50 rsi atr sd mom)
    | _, _, _, _, _, _, _ => None
    end.

(** Python's two-argument [max] and [min]: the first argument wins ties. *)
Definition py_max (a b : Q) : Q := if Qltb a b then b else a.
Definition py_min (a b : Q) : Q := if Qltb b a then b else a.

(** [Series.shift(k)] on a fully defined column. *)
Definition shift {A} (k : nat) (col : list A) : list (option A) :=
  take (length col) (replicate k None ++ (Some <$> col)).

(** [Series.diff()]. *)
Definition diff (col : list Q) : list (option Q) :=
  zip_with (λ x p, (λ y, x - y)%Q <$> p) col (shift 1 col).

(** [Series.pct_change()]: [x / x.shift(1) - 1]. *)
Definition pct_change (col : list Q) : list xnum :=
  zip_with (λ x p,
      match p with
      | None => NaN
      | Some y => match xdiv x y with
                  | Fin q => Fin (q - 1)%Q
                  | other => other
                  end
      end) col (shift 1 col).

(** The window of [k] cells that ends at position [i], when there are
    [k] cells up to [i]. *)
Definition window {A} (k i : nat) (col : list A) : option (list A) :=
  if (k <=? S i)%nat && (i <? length col)%nat
  then Some (take k (drop (S i - k) col))
  else None.

(** [rolling(k).agg()]: defined where the window holds [k] usable cells. *)
Definition rolling {A} (k : nat) (usable : A → option Q) (agg : list Q → Q)
    (col : list A) : list (option Q) :=
  imap (λ i _, w ← window k i col; agg <$> mapM usable w) col.

Definition finite (x : xnum) : option Q :=
  match x with Fin q => Some q | _ => None end.

Definition fillna (v : Q) (col : list (option Q)) : list Q := default v <$> col.

(** [Series.clip(lower=0)] and [Series.clip(upper=0)]; undefined cells stay. *)
Definition clip_lower0 (col : list (option Q)) : list (option Q) :=
  fmap (M:=option) (λ x, if Qltb x 0 then 0%Q else x) <$> col.
Definition clip_upper0 (col : list (option Q)) : list (option Q) :=
  fmap (M:=option) (λ x, if Qltb 0 x then 0%Q else x) <$> col.

(** [ewm(span=k, adjust=False).mean()] on a fully defined column. *)
Fixpoint ewm_go (alpha prev : Q) (col : list Q) : list Q :=
  match col with
  | [] => []
  | x :: r => let y := ((1 - alpha) * prev + alpha * x)%Q in y :: ewm_go alpha y r
  end.

Definition ewm_mean (span : Z) (col : list Q) : list Q :=
  match col with
  | [] => []
  | x :: r => x :: ewm_go (2 / (inject_Z span + 1))%Q x r
  end.

Definition sub_shift (k : nat) (col : list Q) : list (option Q) :=
  zip_with (λ x p, (λ y, x - y)%Q <$> p) col (shift k col).

(** True range as the fallback path writes it:
    [high.combine(close.shift(1), max) - low.combine(close.shift(1), min)].
    In the first row the shifted close is undefined and [max(h, nan)] is
    [h], [min(l, nan)] is [l]. *)
Definition true_range (df : list candle) : list Q :=
  zip_with (λ r p,
      match p with
      | None => (high r - low r)%Q
      | Some pc => (py_max (high r) pc - py_min (low r) pc)%Q
      end) df (shift 1 (close <$> df)).

(** [rs = (up / down).replace([inf, -inf], nan).fillna(0)]: the quotient
    where both means are defined and [down] is not zero, else 0. *)
Definition rs_cell (up down : option Q) : Q :=
  match up, down with
  | Some u, Some d => if Qeq_bool d 0 then 0%Q else (u / d)%Q
  | _, _ => 0%Q
  end.

Definition rsi_of_rs (rs : Q) : Q := (100 - 100 / (1 + rs))%Q.

Definition col_at {A} (col : list (option A)) (i : nat) : option A :=
  mjoin (col !! i).

Section features.
(** Square root on floats, as [numpy] and [pandas] use it. *)
Variable sqrt : Q → Q.
(** The [ta] module object; [None] when the import failed. *)
Variable ta : option TaLib.

(** [np.std(x)] (population) and [rolling(k).std()] (sample). *)
Definition np_std (x : list Q) : Q :=
  let m := Qmean x in sqrt (Qmean ((λ v, (v - m) * (v - m))%Q <$> x)).

Definition sample_std (x : list Q) : Q :=
  let m := Qmean x in
  sqrt (Qsum ((λ v, (v - m) * (v - m))%Q <$> x)
        / inject_Z (Z.of_nat (length x) - 1))%Q.

Definition ta_call (f : TaLib → result (list (option Q)))
  : result (list (option Q)) :=
  match ta with
  | None => Raise "'NoneType' object has no attribute"
  | Some lib => f lib
  end.

Definition assemble (df : list candle) (ret : list xnum)
    (e8 e21 e50 rsi atr sd mom : list (option Q)) : list feat_cells :=
  imap (λ i r, FeatCells r (default NaN (ret !! i))
                 (col_at e8 i) (col_at e21 i) (col_at e50 i)
                 (col_at rsi i) (col_at atr i) (col_at sd i) (col_at mom i)) df.

(** The [try] block: indicators from the library. *)
Definition library_features (df : list candle) : result (list feat_row) :=
  let c := close <$> df in
  let h := high <$> df in
  let l := low <$> df in
  let ret := pct_change c in
  e8 ← ta_call (λ lib, ta_ema lib c 8);
  e21 ← ta_call (λ lib, ta_ema lib c 21);
  e50 ← ta_call (λ lib, ta_ema lib c 50);
  rsi ← ta_call (λ lib, ta_rsi lib c 14);
  atr ← ta_call (λ lib, ta_atr lib h l c 14);
  let sd := rolling 5 finite sample_std (pct_change c) in
  let mom := sub_shift 5 c in
  Ok (omap dropna_row (assemble df ret e8 e21 e50 rsi atr sd mom)).

(** The [except] block: the same columns with plain pandas.  [ret_1] was
    already written by the first statement of the [try] block. *)
Definition fallback_features (df : list candle) : list feat_row :=
  let c := close <$> df in
  let ret := pct_change c in
  let e8 := ewm_mean 8 c in
  let e21 := ewm_mean 21 c in
  let e50 := ewm_mean 50 c in
  let delta := diff c in
  let up := rolling 14 id Qmean (clip_lower0 delta) in
  let down := fmap (M:=option) Qopp <$> rolling 14 id Qmean (clip_upper0 delta) in
  let rsi := zip_with (λ u d, rsi_of_rs (rs_cell u d)) up down in
  let atr := rolling 14 Some Qmean (true_range df) in
  let sd := fillna 0 (rolling 5 finite sample_std (pct_change c)) in
  let mom := sub_shift 5 c in
  omap dropna_row
    (assemble df ret (Some <$> e8) (Some <$> e21) (Some <$> e50)
              (Some <$> rsi) atr (Some <$> sd) mom).

Definition compute_features (df : list candle) : list feat_row :=
  if (length df <? 3)%nat then []
  else match library_features df with
       | Ok feat => feat
       | Raise _ => fallback_features df
       end.
End features.

(** ** Predict helpers *)

Record Signal : Type := MkSignal {
  s_label : string;
  s_confidence : Q;
  s_entry : Q;
  s_sl : Q;
  s_tp : Q;
}.

(** Stop and target for a label, shared by both strategies. *)
Definition stop_level (label : string) (last_close atr : Q) : Q :=
  if String.eqb label "long" then (last_close - (12 # 10) * atr)%Q
  else if String.eqb label "short" then (last_close + (12 # 10) * atr)%Q
  else 0%Q.

Definition target_level (label : string) (last_close atr : Q) : Q :=
  if String.eqb label "long" then (last_close + (24 # 10) * atr)%Q
  else if String.eqb label "short" then (last_close - (24 # 10) * atr)%Q
  else 0%Q.

(** The classifier as the server uses it: [predict_proba(X)[0]] and
    [classes_]. *)
Inductive class_label : Type :=
| ClsInt (z : Z)
| ClsStr (s : string).

Record Model : Type := {
  predict_proba : list xnum → result (list Q);
  classes_ : list class_label;
}.

(** [model_meta.json]: the two keys the server reads, each possibly absent. *)
Record Meta : Type := {
  meta_features : option (list string);
  meta_label_map : option (gmap string string);
}.

Definition default_label_map : gmap string string :=
  <["0" := "none"]> (<["1" := "long"]> (<["2" := "short"]> ∅)).

(** A cell of the feature frame by column name; [None] is a [KeyError]. *)
Definition feature_cell (r : feat_row) (name : string) : option xnum :=
  if String.eqb name "timestamp" then Some (Fin (inject_Z (timestamp (f_candle r))))
  else if String.eqb name "open" then Some (Fin (open (f_candle r)))
  else if String.eqb name "high" then Some (Fin (high (f_candle r)))
  else if String.eqb name "low" then Some (Fin (low (f_candle r)))
  else if String.eqb name "close" then Some (Fin (close (f_candle r)))
  else if String.eqb name "volume" then Some (Fin (volume (f_candle r)))
  else if String.eqb name "ret_1" then Some (ret_1 r)
  else if String.eqb name "ema8" then Some (Fin (ema8 r))
  else if String.eqb name "ema21" then Some (Fin (ema21 r))
  else if String.eqb name "ema50" then Some (Fin (ema50 r))
  else if String.eqb name "rsi14" then Some (Fin (rsi14 r))
  else if String.eqb name "atr14" then Some (Fin (atr14 r))
  else if String.eqb name "std5" then Some (Fin (std5 r))
  else if String.eqb name "mom5" then Some (Fin (mom5 r))
  else None.

(** [featdf.iloc[[-1]][feat_cols].fillna(0)]. *)
Definition feature_vector (r : feat_row) (feat_cols : list string)
  : result (list xnum) :=
  mapM (λ name,
      match feature_cell r name with
      | Some NaN => Ok (Fin 0)
      | Some x => Ok x
      | None => Raise ("['" +:+ name +:+ "'] not in index")
      end) feat_cols.

(** [np.argmax]: the first position of the largest entry. *)
Fixpoint argmax_go (best : Q) (besti i : nat) (l : list Q) : nat :=
  match l with
  | [] => besti
  | x :: r => if Qltb best x then argmax_go x i (S i) r
              else argmax_go best besti (S i) r
  end.

Definition argmax (l : list Q) : result nat :=
  match l with
  | [] => Raise "attempt to get argmax of an empty sequence"
  | x :: r => Ok (argmax_go x 0%nat 1%nat r)
  end.

Definition class_key (cls : class_label) : string :=
  match cls with
  | ClsInt z => pretty z
  | ClsStr s => s
  end.

Section signals.
Variable sqrt : Q → Q.
Variable ta : option TaLib.
(** The module globals [MODEL] and [META]. *)
Variable MODEL : option Model.
Variable META : option Meta.

(** The volatility proxy: [atr14] of the last feature row, replaced by
    [max(2 * std(close.diff()), 1e-8)] when it is zero. *)
Definition atr_proxy (df : list candle) (atr : Q) : Q :=
  if Qeq_bool atr 0
  then py_max (np_std sqrt (omap id (diff (close <$> df))) * 2)%Q (1 # 100000000)
  else atr.

Definition heuristic_label (e8 e21 e50 rsi : Q) : string :=
  if Qgtb e8 e21 && Qgtb e21 e50 && Qgtb rsi 50 then "long"
  else if Qltb e8 e21 && Qltb e21 e50 && Qltb rsi 50 then "short"
  else "none".

Definition heuristic_confidence (label : string) (e8 e50 rsi : Q) : Q :=
  if negb (String.eqb label "none") then
    let sep := (Qabs (e8 - e50) / (if negb (Qeq_bool e50 0) then e50 else 1))%Q in
    py_min (95 # 100) ((55 # 100) + sep * 5 + (Qabs (rsi - 50) / 50) * (3 # 10))%Q
  else (5 # 10)%Q.

Definition heuristic_signal_from_df (df : list candle) : Signal :=
  match last df with
  | None => MkSignal "none" 0 0 0 0
  | Some last_row =>
      let last_close := close last_row in
      match last (compute_features sqrt ta df) with
      | None => MkSignal "none" 0 last_close 0 0
      | Some lst =>
          let atr := atr_proxy df (atr14 lst) in
          let label := heuristic_label (ema8 lst) (ema21 lst) (ema50 lst) (rsi14 lst) in
          MkSignal label
            (heuristic_confidence label (ema8 lst) (ema50 lst) (rsi14 lst))
            last_close
            (stop_level label last_close atr)
            (target_level label last_close atr)
      end
  end.

Definition model_predict_from_df (df : list candle) : result Signal :=
  match MODEL, META with
  | Some model, Some meta =>
      match last (compute_features sqrt ta df) with
      | None => Ok (heuristic_signal_from_df df)
      | Some lst =>
          match default [] (meta_features meta) with
          | [] => Ok (heuristic_signal_from_df df)
          | feat_cols =>
              X ← feature_vector lst feat_cols;
              match predict_proba model X with
              | Raise _ => Ok (heuristic_signal_from_df df)
              | Ok probs =>
                  idx ← argmax probs;
                  match classes_ model !! idx, probs !! idx, last df with
                  | Some cls, Some p, Some last_row =>
                      let label_map := default default_label_map (meta_label_map meta) in
                      let label := default "none" (label_map !! class_key cls) in
                      let last_close := close last_row in
                      let atr := atr_proxy df (atr14 lst) in
                      Ok (MkSignal label p last_close
                            (stop_level label last_close atr)
                            (target_level label last_close atr))
                  | _, _, _ => Raise "index out of bounds"
                  end
              end
          end
      end
  | _, _ => Ok (heuristic_signal_from_df df)
  end.
End signals.

(** ** The outside world

    [World] is the mutable process state: the cache dictionary and a
    counter of the effects performed so far, which indexes the readings of
    the clock and the replies of the network and the file system. *)

#[local] Set Warnings "-register-all".
Inductive json : Type :=
| JNull
| JBool (b : bool)
| JNum (q : Q)
| JStr (s : string)
| JArr (items : list json)
| JObj (fields : list (string * json)).

Inductive http_reply : Type :=
| HttpFailed (msg : string)                       (* the request itself raised *)
| HttpReply (status : Z) (body : option json).    (* [None]: [r.json()] raises *)

Record World : Type := MkWorld {
  _CACHE : gmap string (Z * list raw_candle);
  tick : nat;
}.

Definition M (A : Type) : Type := World → result A * World.

#[global] Instance M_ret : MRet M := λ A a w, (Ok a, w).
#[global] Instance M_bind : MBind M := λ A B k m w,
  match m w with
  | (Ok a, w') => k a w'
  | (Raise msg, w') => (Raise msg, w')
  end.

Definition raise {A} (msg : string) : M A := λ w, (Raise msg, w).
Definition lift {A} (r : result A) : M A := λ w, (r, w).

(** [try: m  except Exception as e: handler(str(e))]. *)
Definition try_except {A} (m : M A) (handler : string → M A) : M A := λ w,
  match m w with
  | (Ok a, w') => (Ok a, w')
  | (Raise msg, w') => handler msg w'
  end.

(** JSON values as Python sees them. *)
Definition truthy (j : json) : bool :=
  match j with
  | JNull => false
  | JBool b => b
  | JNum q => negb (Qeq_bool q 0)
  | JStr s => negb (String.eqb s "")
  | JArr l => negb (bool_decide (length l = 0%nat))
  | JObj l => negb (bool_decide (length l = 0%nat))
  end.

Definition dict_get (k : string) (fields : list (string * json)) : option json :=
  snd <$> find (λ kv, String.eqb kv.1 k) fields.

(** [d.get(k)] on any JSON value: only an object has the method. *)
Definition json_get (k : string) (j : json) : result (option json) :=
  match j with
  | JObj fields => Ok (dict_get k fields)
  | _ => Raise "object has no attribute 'get'"
  end.

(** [k in j]. *)
Definition json_contains (k : string) (j : json) : result bool :=
  match j with
  | JObj fields => Ok (bool_decide (is_Some (dict_get k fields)))
  | JArr items => Ok (existsb (λ x, match x with JStr s => String.eqb s k | _ => false end) items)
  | JStr s => Ok (contains k s)
  | _ => Raise "argument is not iterable"
  end.

Definition falsy_token (tok : option string) : bool :=
  match tok with
  | None => true
  | Some s => String.eqb s ""
  end.

(** [df.tail(n)], negative [n] included. *)
Definition tail {A} (n : Z) (df : list A) : list A :=
  if n <? 0 then drop (Z.to_nat (- n)) df
  else drop (length df - Z.to_nat n) df.

Definition BINANCE_REST : string := "https://api.binance.com/api/v3/klines".
Definition ALPHA_BASE : string := "https://www.alphavantage.co/query".

Definition ALPHA_INTERVAL_MAP (tf : string) : option string :=
  if String.eqb tf "1m" then Some "1min"
  else if String.eqb tf "5m" then Some "5min"
  else if String.eqb tf "15m" then Some "15min"
  else if String.eqb tf "1h" then Some "60min"
  else None.

Definition oanda_map_tf (tf : string) : option string :=
  if String.eqb tf "1m" then Some "M1"
  else if String.eqb tf "5m" then Some "M5"
  else if String.eqb tf "15m" then Some "M15"
  else if String.eqb tf "1h" then Some "H1"
  else if String.eqb tf "4h" then Some "H4"
  else None.

(** What [pd.read_csv(path, parse_dates=["timestamp"])] returns: the rows,
    and whether the timestamp column came out datetime-typed.  It stays of
    dtype object when a cell does not parse as a date and when the file has
    no data row; [r_timestamp] then only stands for the place of the cell in
    the order of the column. *)
Record csv_frame : Type := CsvFrame {
  csv_datetime : bool;
  csv_rows : list raw_candle;
}.

(** What the process reads from outside. *)
Record Env : Type := {
  OANDA_TOKEN : option string;
  OANDA_API_BASE : string;
  ALPHA_VANTAGE_KEY : option string;
  MODEL : option Model;
  META : option Meta;
  ta : option TaLib;
  sqrt : Q → Q;
  (** [datetime.now(timezone.utc)] in microseconds, by effect index *)
  clock : nat → Z;
  (** [client.get(url, params=...)], by effect index *)
  http_get : nat → string → list (string * string) → http_reply;
  (** [os.path.exists] and [pd.read_csv(path, parse_dates=["timestamp"])] *)
  path_exists : nat → string → bool;
  read_csv : nat → string → result csv_frame;
  (** [pd.to_datetime] on a string; [None] when it raises *)
  to_datetime : string → option Z;
  (** [pd.to_datetime] on the timestamp list of a window; [None] when it
      raises, else what each string of the list is read as *)
  to_datetime_list : list string → option (string → Z);
  (** [float(s)]: [None] when it raises, [Some None] for a NaN *)
  py_float : string → option (option Q);
  (** [int(s)]; [None] when it raises *)
  py_int : string → option Z;
}.

Section adapters.
Variable env : Env.

(** *** Effects *)

Definition cache_getM (key : string) : M (option (list raw_candle)) := λ w,
  let '(r, c) := cache_get (clock env (tick w)) key (_CACHE w) in
  (Ok r, MkWorld c (S (tick w))).

Definition cache_setM (key : string) (payload : list raw_candle) : M unit := λ w,
  (Ok tt, MkWorld (cache_set (clock env (tick w)) key payload (_CACHE w))
                  (S (tick w))).

Definition http (url : string) (params : list (string * string)) : M http_reply :=
  λ w, (Ok (http_get env (tick w) url params), MkWorld (_CACHE w) (S (tick w))).

Definition exists_path (p : string) : M bool := λ w,
  (Ok (path_exists env (tick w) p), MkWorld (_CACHE w) (S (tick w))).

Definition read_csvM (p : string) : M csv_frame := λ w,
  (read_csv env (tick w) p, MkWorld (_CACHE w) (S (tick w))).

(** [r.raise_for_status(); r.json()] *)
Definition checked_json (r : http_reply) : result json :=
  match r with
  | HttpFailed msg => Raise msg
  | HttpReply status body =>
      if (200 <=? status) && (status <? 300) then
        match body with
        | Some js => Ok js
        | None => Raise "Expecting value: line 1 column 1 (char 0)"
        end
      else Raise ("Client error '" +:+ pretty status +:+ "' for url")
  end.

(** [float(x)] on a JSON value; [astype(float)] agrees on these cells. *)
Definition to_float (j : json) : result (option Q) :=
  match j with
  | JNum q => Ok (Some q)
  | JStr s => match py_float env s with
              | Some v => Ok v
              | None => Raise ("could not convert string to float: " +:+ s)
              end
  | JBool b => Ok (Some (if b then 1%Q else 0%Q))
  | _ => Raise "float() argument must be a string or a real number"
  end.

(** *** Binance *)

(** One row of the klines reply: twelve cells, [open_time] in
    milliseconds, the prices as strings.  A [null] price cell becomes NaN
    under [astype(float)]. *)
Definition binance_cell (j : json) : result (option Q) :=
  match j with
  | JNull => Ok None
  | _ => to_float j
  end.

Definition binance_row (row : json) : result raw_candle :=
  match row with
  | JArr [JNum open_time; o; h; l; c; v; _; _; _; _; _; _] =>
      o' ← binance_cell o;
      h' ← binance_cell h;
      l' ← binance_cell l;
      c' ← binance_cell c;
      v' ← binance_cell v;
      Ok (RawCandle (Qfloor (open_time * 1000000)) o' h' l' c' v')
  | _ => Raise "12 columns passed, passed data had a different shape"
  end.

Definition binance_columns : list string :=
  ["open_time"; "open"; "high"; "low"; "close"; "volume"; "close_time"; "q"; "n";
   "taker_base_vol"; "taker_quote_vol"; "ignore"].

(** [pd.DataFrame(data, columns=[...])].  A list gives one row per entry.
    An object is read as a dict of columns: only keys that are column names
    with a value other than [null] count; when there is none the frame is
    empty, and when the values that count are all scalars the constructor
    raises.  Object bodies that give columns of cells are not modelled. *)
Definition binance_frame (data : json) : result (list raw_candle) :=
  match data with
  | JArr rows => mapM binance_row rows
  | JNull => Ok []
  | JObj fields =>
      if existsb (λ kv, str_in kv.1 binance_columns
                        && negb (match kv.2 with JNull => true | _ => false end))
                 fields
      then Raise "If using all scalar values, you must pass an index"
      else Ok []
  | _ => Raise "DataFrame constructor not properly called!"
  end.

Definition fetch_binance_klines (symbol interval : string) (limit : Z)
  : M (list raw_candle) :=
  let cache_key :=
    "binance::" +:+ symbol +:+ "::" +:+ interval +:+ "::" +:+ pretty limit in
  cached ← cache_getM cache_key;
  match cached with
  | Some df => mret df
  | None =>
      let params := [("symbol", replace "BINANCE:" "" symbol);
                     ("interval", interval); ("limit", pretty limit)] in
      r ← http BINANCE_REST params;
      data ← lift (checked_json r);
      out ← lift (binance_frame data);
      _ ← cache_setM cache_key out;
      mret out
  end.

(** *** OANDA *)

Definition oanda_instrument (symbol : string) : string :=
  let inst_raw := split1_tail ":" symbol in
  let inst_clean := upper (replace "/" "" (replace "-" "" inst_raw)) in
  if contains "_" inst_raw then upper inst_raw
  else if (6 <=? String.length inst_clean)%nat
       then str_take 3 inst_clean +:+ "_" +:+ str_drop 3 inst_clean
       else inst_clean.

(** [safe_float(d, k)]: never raises. *)
Definition safe_float (d : json) (k : string) : option Q :=
  match d with
  | JObj fields =>
      match dict_get k fields with
      | None | Some JNull => None
      | Some v => match to_float v with Ok x => x | Raise _ => None end
      end
  | _ => None
  end.

(** [int(x or 0)] *)
Definition to_int_or_0 (j : option json) : result Z :=
  match j with
  | None => Ok 0
  | Some v =>
      if truthy v then
        match v with
        | JNum q => Ok (Z.quot (Qnum q) (Zpos (Qden q)))
        | JBool _ => Ok 1
        | JStr s => match py_int env s with
                    | Some z => Ok z
                    | None => Raise ("invalid literal for int() with base 10: " +:+ s)
                    end
        | _ => Raise "int() argument must be a string or a real number"
        end
      else Ok 0
  end.

(** [pd.to_datetime(t)] on a JSON value. *)
Definition json_datetime (t : json) : result Z :=
  match t with
  | JStr s => parse_datetime (to_datetime env) s
  | JNum q => Ok (Qfloor q)
  | _ => Raise "is not convertible to datetime"
  end.

(** [a or b] *)
Definition first_truthy (a : option json) (b : json) : json :=
  match a with
  | Some v => if truthy v then v else b
  | None => b
  end.

Definition oanda_row (c : json) : result (option raw_candle) :=
  t ← json_get "time" c;
  match t with
  | None => Ok None
  | Some t =>
      if negb (truthy t) then Ok None
      else
        mid ← json_get "mid" c;
        midpoint ← json_get "midpoint" c;
        let price_obj := first_truthy mid (first_truthy midpoint (JObj [])) in
        let o := safe_float price_obj "o" in
        let h := safe_float price_obj "h" in
        let l := safe_float price_obj "l" in
        let cl := safe_float price_obj "c" in
        volume ← json_get "volume" c;
        vol ← to_int_or_0 volume;
        ts ← json_datetime t;
        Ok (Some (RawCandle ts o h l cl (Some (inject_Z vol))))
  end.

(** The [for c in js.get("candles", [])] loop. *)
Definition oanda_rows (js : json) : result (list raw_candle) :=
  candles ← json_get "candles" js;
  match default (JArr []) candles with
  | JArr items => omap id <$> mapM oanda_row items
  | JObj [] | JStr "" => Ok []
  | _ => Raise "object is not iterable or has no attribute 'get'"
  end.

Definition fetch_oanda_candles (symbol granularity : string) (count : Z)
  : M (option (list raw_candle)) :=
  if falsy_token (OANDA_TOKEN env) then mret None
  else
    match oanda_map_tf granularity with
    | None => mret None
    | Some gran =>
        let inst := oanda_instrument symbol in
        let url := OANDA_API_BASE env +:+ "/v3/instruments/" +:+ inst +:+ "/candles" in
        let params := [("granularity", gran); ("count", pretty count); ("price", "M")] in
        let cache_key :=
          "oanda::" +:+ inst +:+ "::" +:+ gran +:+ "::" +:+ pretty count in
        cached ← cache_getM cache_key;
        match cached with
        | Some df => mret (Some df)
        | None =>
            r ← http url params;
            match r with
            | HttpFailed _ => mret None
            | HttpReply status body =>
                if negb (status =? 200) then mret None
                else
                  match body with
                  | None => mret None
                  | Some js =>
                      match oanda_rows js with
                      | Raise _ => mret None
                      | Ok [] => mret None
                      | Ok rows =>
                          let df := sort_values_raw rows in
                          _ ← cache_setM cache_key df;
                          mret (Some df)
                      end
                  end
            end
        end
    end.
(** *** Alpha Vantage *)

Definition alpha_float (k : string) (fields : list (string * json))
  : result (option Q) :=
  match dict_get k fields with
  | None => Ok None
  | Some v => to_float v
  end.

(** One entry of the time-series object; [None] is a [continue]. *)
Definition alpha_row (entry : string * json) : option raw_candle :=
  match to_datetime env entry.1, entry.2 with
  | Some t, JObj fields =>
      match alpha_float "1. open" fields, alpha_float "2. high" fields,
            alpha_float "3. low" fields, alpha_float "4. close" fields with
      | Ok o, Ok h, Ok l, Ok c => Some (RawCandle t o h l c (Some 0%Q))
      | _, _, _, _ => None
      end
  | _, _ => None
  end.

(** Everything after the HTTP [try] block up to the frame; [Ok None] is
    a logged [return None]. *)
Definition alpha_parse (interval : string) (limit : Z) (js : json)
  : result (option (list raw_candle)) :=
  has_note ← json_contains "Note" js;
  if has_note : bool then
    note ← json_get "Note" js;
    match note with
    | Some (JStr _) | Some (JArr _) => Ok None
    | _ => Raise "object is not subscriptable"
    end
  else
    has_error ← json_contains "Error Message" js;
    if has_error : bool then _ ← json_get "Error Message" js; Ok None
    else
      match js with
      | JObj fields =>
          match find (λ kv, startswith kv.1 "Time Series") fields with
          | None => Ok None
          | Some (_, JObj series) =>
              match omap alpha_row series with
              | [] => Ok None
              | rows =>
                  let df := sort_values_raw rows in
                  let df := if String.eqb interval "4h"
                            then resample_ohlcv (240 * minute_ns)
                                   (resample_ohlcv (60 * minute_ns) df)
                            else df in
                  let df := if Z.of_nat (length df) >? limit
                            then tail limit df else df in
                  Ok (Some df)
              end
          | Some _ => Raise "object has no attribute 'items'"
          end
      | _ => Raise "object has no attribute 'keys'"
      end.

Definition fetch_alpha_vantage_candles (symbol interval : string) (limit : Z)
  : M (option (list raw_candle)) :=
  match ALPHA_VANTAGE_KEY env with
  | None => mret None
  | Some apikey =>
      if String.eqb apikey "" then mret None
      else
        let inst_raw := split1_tail ":" symbol in
        let inst := upper (replace "_" "" inst_raw) in
        if negb (6 <=? String.length inst)%nat then mret None
        else
          let from_sym := str_take 3 inst in
          let to_sym := str_drop 3 inst in
          if negb (bool_decide (is_Some (ALPHA_INTERVAL_MAP interval)))
             && negb (String.eqb interval "4h")
          then mret None
          else
            let av_interval := default "60min" (ALPHA_INTERVAL_MAP interval) in
            let cache_key :=
              "av::" +:+ from_sym +:+ "_" +:+ to_sym +:+ "::" +:+ av_interval
              +:+ "::" +:+ pretty limit in
            cached ← cache_getM cache_key;
            match cached with
            | Some df => mret (Some df)
            | None =>
                let params := [("function", "FX_INTRADAY"); ("from_symbol", from_sym);
                               ("to_symbol", to_sym); ("interval", av_interval);
                               ("outputsize", "full"); ("apikey", apikey)] in
                r ← http ALPHA_BASE params;
                match checked_json r with
                | Raise _ => mret None
                | Ok js =>
                    parsed ← lift (alpha_parse interval limit js);
                    match parsed with
                    | None => mret None
                    | Some df => _ ← cache_setM cache_key df; mret (Some df)
                    end
                end
            end
  end.
End adapters.

(** ** Main endpoint *)

Record BatchRequest : Type := {
  req_symbol : string;
  req_timeframes : list string;
  req_candles : option (gmap string CandleWindow);
  req_limit : option Z;
}.

Record Prediction : Type := MkPrediction {
  p_timeframe : string;
  p_label : string;
  p_confidence : Q;
  p_entry : Q;
  p_sl : Q;
  p_tp : Q;
  p_source : string;
}.

(** What the source-selection chain leaves in [df] and [src]; the local-CSV
    branch that finds no file appends its Prediction at once. *)
Inductive resolved : Type :=
| NoFile
| Resolved (df : option (list raw_candle)) (src : string).

Definition no_data (tf : string) : Prediction :=
  MkPrediction tf "none" 0 0 0 0 "no-data".

Definition error_prediction (tf msg : string) : Prediction :=
  MkPrediction tf "none" 0 0 0 0 ("error:" +:+ str_take 120 msg).

(** [src if src else "heuristic"] *)
Definition src_or_heuristic (src : string) : string :=
  if String.eqb src "" then "heuristic" else src.

Definition local_csv_candidates (symbol : string) : list string :=
  let s := replace ":" "_" symbol in
  ["historical_" +:+ s +:+ "_1m.csv"; s +:+ "_1m.csv";
   "historical_" +:+ s +:+ ".csv"; s +:+ ".csv"].

(** [req.timeframes or ["1m"]] *)
Definition effective_timeframes (req : BatchRequest) : list string :=
  match req_timeframes req with
  | [] => ["1m"]
  | tfs => tfs
  end.

(** [req.limit or DEFAULT_LIMIT] *)
Definition effective_limit (req : BatchRequest) : Z :=
  match req_limit req with
  | None | Some 0 => DEFAULT_LIMIT
  | Some n => n
  end.

Section batch_predict.
Variable env : Env.

Fixpoint first_existing (cands : list string) : M (option string) :=
  match cands with
  | [] => mret None
  | c :: rest =>
      b ← exists_path env c;
      if b : bool then mret (Some c) else first_existing rest
  end.

(** Steps 1 to 5 of the loop body: pick the source of the frame. *)
Definition resolve_source (req : BatchRequest) (symbol : string) (limit : Z)
    (tf : string) : M resolved :=
  let is_binance := startswith (upper symbol) "BINANCE:" in
  let is_oanda := startswith (upper symbol) "OANDA:" in
  let is_alpha_candidate :=
    contains "XAU" (upper symbol) || startswith (upper symbol) "ALPHA:" in
  match req_candles req ≫= (λ d, d !! tf) with
  | Some window =>
      df ← lift (candles_to_df (to_datetime_list env) window);
      mret (Resolved (Some (raw_of <$> df)) "client-candles")
  | None =>
      if is_binance then
        df ← fetch_binance_klines env symbol tf limit;
        mret (Resolved (Some df) "binance-rest")
      else if is_oanda then
        df ← fetch_oanda_candles env symbol tf limit;
        mret (Resolved df (if df is Some _ then "oanda-rest" else "no-data"))
      else if is_alpha_candidate && negb (falsy_token (ALPHA_VANTAGE_KEY env)) then
        df ← fetch_alpha_vantage_candles env symbol tf limit;
        mret (Resolved df (if df is Some _ then "alpha-vantage" else "no-data"))
      else
        found ← first_existing (local_csv_candidates symbol);
        match found with
        | Some path =>
            csv ← read_csvM env path;
            let df1 := sort_values_raw (csv_rows csv) in
            df ← (if String.eqb tf "1m" then mret df1
                  else lift (aggregate_from_1m (csv_datetime csv) df1 tf));
            mret (Resolved (Some df) ("local-csv:" +:+ basename path))
        | None => mret NoFile
        end
  end.

Definition tag (tf : string) (s : Signal) (source : string) : Prediction :=
  MkPrediction tf (s_label s) (s_confidence s) (s_entry s) (s_sl s) (s_tp s) source.

(** The rest of the loop body: validate, clean, predict. *)
Definition predict_frame (tf : string) (df : option (list raw_candle))
    (src : string) : result Prediction :=
  match df with
  | None | Some [] => Ok (no_data tf)
  | Some raw =>
      let df := clean_frame raw in
      if (length df <? 50)%nat then
        Ok (tag tf (heuristic_signal_from_df (sqrt env) (ta env) df)
                (src_or_heuristic src))
      else
        pred ← (if MODEL env is Some _
                then model_predict_from_df (sqrt env) (ta env) (MODEL env) (META env) df
                else Ok (heuristic_signal_from_df (sqrt env) (ta env) df));
        Ok (tag tf pred (if MODEL env is Some _ then "model"
                         else src_or_heuristic src))
  end.

(** The body of the [try] for one timeframe. *)
Definition process_timeframe (req : BatchRequest) (symbol : string) (limit : Z)
    (tf : string) : M Prediction :=
  r ← resolve_source req symbol limit tf;
  match r with
  | NoFile => mret (no_data tf)
  | Resolved df src => lift (predict_frame tf df src)
  end.

(** The [for tf in timeframes] loop with its [try]/[except]. *)
Fixpoint predict_loop (req : BatchRequest) (symbol : string) (limit : Z)
    (tfs : list string) : M (list Prediction) :=
  match tfs with
  | [] => mret []
  | tf :: rest =>
      p ← try_except (process_timeframe req symbol limit tf)
                     (λ msg, mret (error_prediction tf msg));
      ps ← predict_loop req symbol limit rest;
      mret (p :: ps)
  end.

Definition batch_predict (req : BatchRequest) : M (list Prediction) :=
  let symbol := strip (req_symbol req) in
  let timeframes := effective_timeframes req in
  if existsb (λ tf, negb (str_in tf SUPPORTED_TFS)) timeframes
  then raise "400: Supported timeframes: ['1m', '5m', '15m', '1h', '4h']"
  else predict_loop req symbol (effective_limit req) timeframes.
End batch_predict.

(** ** Sample inputs

    Concrete requests and environments on which the definitions above are
    evaluated. *)

Module Sample.
(** 2024-01-01T00:00:00Z in nanoseconds. *)
Definition midnight : Z := 1704067200 * 1000000000.

Definition two_digits (i : nat) : string :=
  if (i <? 10)%nat then "0" +:+ pretty i else pretty i.

(** The ISO string of minute [i] of that day's first hour. *)
Definition iso_minute (i : nat) : string :=
  "2024-01-01T00:" +:+ two_digits i +:+ ":00Z".

(** [pd.to_datetime] restricted to those sixty strings. *)
Definition parse_iso (s : string) : option Z :=
  (λ hit, midnight + Z.of_nat hit.1 * minute_ns)
    <$> list_find (λ x, x = s) (iso_minute <$> seq 0 60).

(** [pd.to_datetime] on a list of those strings: every string is read as
    [parse_iso] reads it; a list with any other string raises. *)
Definition parse_iso_list (l : list string) : option (string → Z) :=
  if forallb (λ s, bool_decide (is_Some (parse_iso s))) l
  then Some (λ s, default 0 (parse_iso s))
  else None.

(** A square root good to eight decimals. *)
Definition sqrt8 (x : Q) : Q :=
  Z.sqrt (Qfloor (x * 10000000000000000)) # 100000000.

(** A window whose rows are given as [(open, high, low, close)], one per
    minute, volume omitted. *)
Definition window_of (rows : list (Q * Q * Q * Q)) : CandleWindow :=
  Window (iso_minute <$> seq 0 (length rows))
         ((λ r, Some r.1.1.1) <$> rows) ((λ r, Some r.1.1.2) <$> rows)
         ((λ r, Some r.1.2) <$> rows) ((λ r, Some r.2) <$> rows) None.

(** A candle around a close price. *)
Definition around (c : Q) : Q * Q * Q * Q := (c, c + 1, c - 1, c)%Q.

(** The same instant twice. *)
Definition dup_window : CandleWindow :=
  Window [iso_minute 1; iso_minute 0; iso_minute 1]
         [Some 3%Q; Some 1%Q; Some 3%Q] [Some 4%Q; Some 2%Q; Some 4%Q]
         [Some 2%Q; Some 0%Q; Some 2%Q] [Some 3%Q; Some 1%Q; Some 3%Q] None.

(** A one-minute frame whose first row has no open and whose second row
    has no volume. *)
Definition holed_frame : list raw_candle :=
  [RawCandle midnight None (Some 5%Q) (Some 1%Q) (Some 3%Q) (Some 2%Q);
   RawCandle (midnight + minute_ns) (Some 2%Q) (Some 6%Q) (Some 2%Q) (Some 4%Q) None].

(** Three rows stamped 00:14, with opens 10, 11, 12 and closes 30, 31, 32. *)
Definition tied_frame : list raw_candle :=
  (λ i, RawCandle (midnight + 14 * minute_ns) (Some (inject_Z (10 + i)))
                  (Some 40%Q) (Some 5%Q) (Some (inject_Z (30 + i))) (Some 1%Q))
    <$> [0; 1; 2].

(** One-minute candles around the given closes, starting at midnight. *)
Definition candles_around (closes : list Q) : list candle :=
  imap (λ i c, Candle (midnight + Z.of_nat i * minute_ns) c (c + 1) (c - 1) c 10) closes.

(** Twenty closes, each one above the previous. *)
Definition rising : list candle :=
  candles_around ((λ i, inject_Z (100 + Z.of_nat i)) <$> seq 0 20).

(** Fourteen falling closes; the first candle has its high below its low. *)
Definition inverted_fall : list candle :=
  Candle midnight 100 0 1000 100 10
  :: imap (λ i c, Candle (midnight + Z.of_nat (S i) * minute_ns) c (c + 1) (c - 1) c 10)
          ((λ i, inject_Z (99 - Z.of_nat i)) <$> seq 0 13).

(** Twenty closes climbing five and slipping one in turn. *)
Definition zigzag_up : list candle :=
  candles_around
    ((λ i, inject_Z (100 + 2 * Z.of_nat i - 3 * (Z.of_nat i `mod` 2))) <$> seq 0 20).

(** The closes of [zigzag_up], for any number of rows. *)
Definition zigzag_closes (n : nat) : list Q :=
  (λ i, inject_Z (100 + 2 * Z.of_nat i - 3 * (Z.of_nat i `mod` 2))) <$> seq 0 n.

(** A classifier over three classes, one that answers and one whose
    [predict_proba] raises. *)
Definition three_class_model : Model :=
  {| predict_proba := λ _, Ok [2 # 10; 7 # 10; 1 # 10]%Q;
     classes_ := [ClsInt 0; ClsInt 1; ClsInt 2] |}.

Definition failing_model : Model :=
  {| predict_proba := λ _, Raise "X has 2 features, but the classifier is expecting 8";
     classes_ := [ClsInt 0; ClsInt 1; ClsInt 2] |}.

(** Metadata naming computed columns only, and metadata naming a column
    the feature frame does not have. *)
Definition meta_known : Meta :=
  {| meta_features := Some ["ema8"; "rsi14"]; meta_label_map := None |}.

Definition meta_macd : Meta :=
  {| meta_features := Some ["ema8"; "macd"]; meta_label_map := None |}.

(** A process without credentials, without [pandas_ta], without local
    files, whose every HTTP request gets the given reply. *)
Definition env_with (model : option Model) (meta : option Meta)
    (reply : http_reply) : Env :=
  {| OANDA_TOKEN := None;
     OANDA_API_BASE := "https://api-fxpractice.oanda.com";
     ALPHA_VANTAGE_KEY := None;
     MODEL := model;
     META := meta;
     ta := None;
     sqrt := sqrt8;
     clock := λ n, Z.of_nat n * 1000000;
     http_get := λ _ _ _, reply;
     path_exists := λ _ _, false;
     read_csv := λ _ _, Raise "No such file or directory";
     to_datetime := parse_iso;
     to_datetime_list := parse_iso_list;
     py_float := λ _, None;
     py_int := λ _, None |}.

Definition offline : http_reply := HttpFailed "ConnectTimeout".

(** The state of a freshly started process. *)
Definition boot : World := MkWorld ∅ 0.

(** A 1m request for gold carrying its own candles. *)
Definition client_request (closes : list Q) : BatchRequest :=
  {| req_symbol := "XAUUSD";
     req_timeframes := ["1m"];
     req_candles := Some {["1m" := window_of (around <$> closes)]};
     req_limit := None |}.

(** The series [candles_to_df] makes of the window of [client_request]:
    the window has no volume array, so every volume is 0. *)
Definition client_candles (closes : list Q) : list candle :=
  imap (λ i c, Candle (midnight + Z.of_nat i * minute_ns) c (c + 1) (c - 1) c 0) closes.

(** A request that names no timeframe. *)
Definition bare_request : BatchRequest :=
  {| req_symbol := "EURUSD"; req_timeframes := []; req_candles := None;
     req_limit := None |}.

(** A two-timeframe request for bitcoin on Binance. *)
Definition binance_request : BatchRequest :=
  {| req_symbol := "BINANCE:BTCUSDT"; req_timeframes := ["1m"; "5m"];
     req_candles := None; req_limit := None |}.

(** A request that names a timeframe the server does not support. *)
Definition weekly_request : BatchRequest :=
  {| req_symbol := "BINANCE:BTCUSDT"; req_timeframes := ["1m"; "1w"];
     req_candles := None; req_limit := None |}.

(** An Alpha Vantage reply with two hourly entries, the later one first. *)
Definition alpha_body : json :=
  JObj [("Meta Data", JObj []);
        ("Time Series FX (60min)",
         JObj [(iso_minute 1,
                JObj [("1. open", JNum 3); ("2. high", JNum 4);
                      ("3. low", JNum 2); ("4. close", JNum 3)]);
               (iso_minute 0,
                JObj [("1. open", JNum 1); ("2. high", JNum 2);
                      ("3. low", JNum 0); ("4. close", JNum 1)])])].

(** A process with an Alpha Vantage key whose every request gets
    [alpha_body]. *)
Definition env_alpha : Env :=
  {| OANDA_TOKEN := None;
     OANDA_API_BASE := "https://api-fxpractice.oanda.com";
     ALPHA_VANTAGE_KEY := Some "demo";
     MODEL := None;
     META := None;
     ta := None;
     sqrt := sqrt8;
     clock := λ n, Z.of_nat n * 1000000;
     http_get := λ _ _ _, HttpReply 200 (Some alpha_body);
     path_exists := λ _ _, false;
     read_csv := λ _ _, Raise "No such file or directory";
     to_datetime := parse_iso;
     to_datetime_list := parse_iso_list;
     py_float := λ _, None;
     py_int := λ _, None |}.

(** A Binance reply that is an error object. *)
Definition binance_error_body : json :=
  JObj [("code", JNum (-1121)); ("msg", JStr "Invalid symbol.")].

(** A process in which every candidate file exists and has a header line
    but no data row, so that its timestamp column is of dtype object. *)
Definition env_header_only : Env :=
  {| OANDA_TOKEN := None;
     OANDA_API_BASE := "https://api-fxpractice.oanda.com";
     ALPHA_VANTAGE_KEY := None;
     MODEL := None;
     META := None;
     ta := None;
     sqrt := sqrt8;
     clock := λ n, Z.of_nat n * 1000000;
     http_get := λ _ _ _, offline;
     path_exists := λ _ _, true;
     read_csv := λ _ _, Ok (CsvFrame false []);
     to_datetime := parse_iso;
     to_datetime_list := parse_iso_list;
     py_float := λ _, None;
     py_int := λ _, None |}.

(** A request for two timeframes of a symbol that no adapter serves. *)
Definition csv_request : BatchRequest :=
  {| req_symbol := "EURUSD"; req_timeframes := ["1m"; "5m"];
     req_candles := None; req_limit := None |}.

(** A Binance reply with one kline. *)
Definition binance_body : json :=
  JArr [JArr [JNum 1704067200000; JNum 1; JNum 2; JNum 0; JNum 1; JNum 5;
              JNum 1704067259999; JNum 5; JNum 1; JNum 2; JNum 2; JNum 0]].

(** An OANDA reply with two candles, the later one first, and an entry
    without a time. *)
Definition oanda_body : json :=
  JObj [("candles",
         JArr [JObj [("time", JStr (iso_minute 1));
                     ("mid", JObj [("o", JNum 3); ("h", JNum 4); ("l", JNum 2);
                                   ("c", JNum 3)]);
                     ("volume", JNum 7)];
               JObj [("complete", JBool true)];
               JObj [("time", JStr (iso_minute 0));
                     ("mid", JObj [("o", JNum 1); ("h", JNum 2); ("l", JNum 0);
                                   ("c", JNum 1)]);
                     ("volume", JNum 5)]])].

(** A process with an OANDA token whose every request gets [oanda_body]. *)
Definition env_oanda : Env :=
  {| OANDA_TOKEN := Some "token";
     OANDA_API_BASE := "https://api-fxpractice.oanda.com";
     ALPHA_VANTAGE_KEY := None;
     MODEL := None;
     META := None;
     ta := None;
     sqrt := sqrt8;
     clock := λ n, Z.of_nat n * 1000000;
     http_get := λ _ _ _, HttpReply 200 (Some oanda_body);
     path_exists := λ _ _, false;
     read_csv := λ _ _, Raise "No such file or directory";
     to_datetime := parse_iso;
     to_datetime_list := parse_iso_list;
     py_float := λ _, None;
     py_int := λ _, None |}.
End Sample.

(** ** Vocabulary of the statements *)

(** The rows of a window as the [DataFrame] constructor lays them out,
    once the timestamps are parsed. *)
Definition window_rows (ts : list Z) (obj : CandleWindow) : list raw_candle :=
  zip_rows ts (w_open obj) (w_high obj) (w_low obj) (w_close obj)
           (default (replicate (length ts) None) (w_volume obj)).

(** The property C9 claims of a normalised series. *)
Definition strictly_ascending (df : list candle) : Prop :=
  Sorted Z.lt (timestamp <$> df).

(** The rows of [df] that fall in the bin starting at [s], in time order,
    rows with equal timestamps in their order in [df]. *)
Definition bucket (w s : Z) (df : list raw_candle) : list raw_candle :=
  filter (λ r, bin_start w (r_timestamp r) = s) (sort_values_raw df).

(** What each reduction returns, stated on the column of a bucket. *)
Definition first_defined (col : list (option Q)) (v : option Q) : Prop :=
  ∃ pre x post, col = pre ++ Some x :: post ∧ Forall (λ c, c = None) pre ∧ v = Some x.
Definition last_defined (col : list (option Q)) (v : option Q) : Prop :=
  ∃ pre x post, col = pre ++ Some x :: post ∧ Forall (λ c, c = None) post ∧ v = Some x.
Definition max_defined (col : list (option Q)) (v : option Q) : Prop :=
  ∃ m, v = Some m ∧ Some m ∈ col ∧ ∀ x, Some x ∈ col → (x <= m)%Q.
Definition min_defined (col : list (option Q)) (v : option Q) : Prop :=
  ∃ m, v = Some m ∧ Some m ∈ col ∧ ∀ x, Some x ∈ col → (m <= x)%Q.
Definition has_defined (col : list (option Q)) : Prop :=
  ∃ x, Some x ∈ col.


(** The values the source-selection chain can leave in [df] and [src]. *)
Definition known_source (df : option (list raw_candle)) (src : string) : Prop :=
  (df = None ∧ src = "no-data")
  ∨ (is_Some df ∧
     (src = "client-candles" ∨ src = "binance-rest" ∨ src = "oanda-rest"
      ∨ src = "alpha-vantage" ∨ ∃ path, src = "local-csv:" +:+ basename path)).

(** A timeframe list the endpoint accepts. *)
Definition valid_timeframes (tfs : list string) : Prop :=
  Forall (λ tf, tf ∈ SUPPORTED_TFS) tfs.

(** [served tfs w preds w']: going through [tfs] from state [w], each
    timeframe contributes the Prediction its processing returns or, when its
    processing raises, the error Prediction for the message; either way the
    next timeframe is processed from the state the previous one left. *)
Inductive served (env : Env) (req : BatchRequest) (symbol : string) (limit : Z)
  : list string → World → list Prediction → World → Prop :=
| served_nil w : served env req symbol limit [] w [] w
| served_ok tf tfs w p w1 ps w2 :
    process_timeframe env req symbol limit tf w = (Ok p, w1) →
    served env req symbol limit tfs w1 ps w2 →
    served env req symbol limit (tf :: tfs) w (p :: ps) w2
| served_error tf tfs w msg w1 ps w2 :
    process_timeframe env req symbol limit tf w = (Raise msg, w1) →
    served env req symbol limit tfs w1 ps w2 →
    served env req symbol limit (tf :: tfs) w (error_prediction tf msg :: ps) w2.

(** No key has a live entry in the cache at the next clock reading. *)
Definition cache_cold (env : Env) (w : World) : Prop :=
  ∀ key, (cache_get (clock env (tick w)) key (_CACHE w)).1 = None.



(** The [rsi14] column the fallback path computes from the close column. *)
Definition fallback_rsi (c : list Q) : list Q :=
  let delta := diff c in
  let up := rolling 14 id Qmean (clip_lower0 delta) in
  let down := fmap (M:=option) Qopp <$> rolling 14 id Qmean (clip_upper0 delta) in
  zip_with (λ u d, rsi_of_rs (rs_cell u d)) up down.

(** No delta of the fourteen that end at row [i] is negative. *)
Definition no_loss_before (c : list Q) (i : nat) : Prop :=
  ∀ j d, (i - 13 ≤ j ≤ i)%nat → diff c !! j = Some (Some d) → (0 <= d)%Q.

(** The first candle of the frame, if any, has its low at or below its
    high. *)
Definition first_candle_upright (df : list candle) : Prop :=
  ∀ r, head df = Some r → (low r <= high r)%Q.

(** Rows in strictly ascending time order. *)
Definition strictly_later (a b : raw_candle) : Prop := r_timestamp a < r_timestamp b.

(** A row whose defined prices are consistent: low at or below open and
    close, high at or above them. *)
Definition raw_upright (r : raw_candle) : Prop :=
  ∀ o h l c, r_open r = Some o → r_high r = Some h → r_low r = Some l →
             r_close r = Some c →
             (l <= o)%Q ∧ (o <= h)%Q ∧ (l <= c)%Q ∧ (c <= h)%Q.

(** The sum of the defined volumes of a frame. *)
Definition total_volume (df : list raw_candle) : Q := agg_sum (r_volume <$> df).

(** The shape of a signal around the close [last_close]: the entry is that
    close; a long or short signal has its target twice as far from the
    entry as its stop, on the other side; any other label has no levels. *)
Definition levels_two_to_one (last_close : Q) (s : Signal) : Prop :=
  s_entry s = last_close
  ∧ (s_label s = "long" → (s_tp s - s_entry s == 2 * (s_entry s - s_sl s))%Q)
  ∧ (s_label s = "short" → (s_entry s - s_tp s == 2 * (s_sl s - s_entry s))%Q)
  ∧ (s_label s ≠ "long" → s_label s ≠ "short" → s_sl s = 0%Q ∧ s_tp s = 0%Q).

(** The source tags a Prediction of the batch can carry. *)
Definition source_tag (src : string) : Prop :=
  src ∈ ["no-data"; "model"; "client-candles"; "binance-rest"; "oanda-rest";
         "alpha-vantage"]
  ∨ startswith src "local-csv:" = true
  ∨ startswith src "error:" = true.

(** The request carries candles for the timeframe. *)
Definition has_client_candles (req : BatchRequest) (tf : string) : Prop :=
  is_Some (req_candles req ≫= (λ d, d !! tf)).

(** The cache keys of the adapters, as their f-strings build them;
    [gran] is the OANDA granularity the timeframe maps to. *)
Definition binance_cache_key (symbol interval : string) (limit : Z) : string :=
  "binance::" +:+ symbol +:+ "::" +:+ interval +:+ "::" +:+ pretty limit.

Definition oanda_cache_key (symbol gran : string) (count : Z) : string :=
  "oanda::" +:+ oanda_instrument symbol +:+ "::" +:+ gran +:+ "::" +:+ pretty count.

Definition alpha_cache_key (symbol interval : string) (limit : Z) : string :=
  let inst := upper (replace "_" "" (split1_tail ":" symbol)) in
  "av::" +:+ str_take 3 inst +:+ "_" +:+ str_drop 3 inst +:+ "::"
  +:+ default "60min" (ALPHA_INTERVAL_MAP interval) +:+ "::" +:+ pretty limit.

(** A frame in time order, equal timestamps allowed. *)
Definition time_ordered (df : list raw_candle) : Prop :=
  StronglySorted raw_ts_le df.

(** * Properties *)

(** ** TTL cache *)

Lemma cache_get_miss {A} now key (c : gmap string (Z * A)) :
  c !! key = None → cache_get now key c = (None, c).
Proof. intros Hk. unfold cache_get. by rewrite Hk. Qed.

Lemma cache_get_fresh {A} now key ts (v : A) (c : gmap string (Z * A)) :
  c !! key = Some (ts, v) →
  now - ts ≤ timedelta_seconds CACHE_TTL_SECONDS →
  cache_get now key c = (Some v, c).
Proof.
  intros Hk Hage. unfold cache_get. rewrite Hk.
  destruct (Z.gtb_spec (now - ts) (timedelta_seconds CACHE_TTL_SECONDS)); [lia | done].
Qed.

Lemma cache_get_stale {A} now key ts (v : A) (c : gmap string (Z * A)) :
  c !! key = Some (ts, v) →
  timedelta_seconds CACHE_TTL_SECONDS < now - ts →
  cache_get now key c = (None, delete key c).
Proof.
  intros Hk Hage. unfold cache_get. rewrite Hk.
  destruct (Z.gtb_spec (now - ts) (timedelta_seconds CACHE_TTL_SECONDS)); [done | lia].
Qed.

(** C8.  After [cache_set key value] at time [T], [cache_get key] at any
    time [t ≤ T + 15s] returns the value and leaves the cache as it is, and
    at any time [t > T + 15s] it returns absent and the entry is gone from
    the cache (lazy eviction).  Times are in microseconds. *)
Theorem cache_ttl {A} (key : string) (value : A) (T t : Z) (c : gmap string (Z * A)) :
  let c' := cache_set T key value c in
  (t ≤ T + timedelta_seconds 15 → cache_get t key c' = (Some value, c')) ∧
  (T + timedelta_seconds 15 < t →
     cache_get t key c' = (None, delete key c') ∧ (cache_get t key c').2 !! key = None).
Proof.
  intros c'. subst c'. unfold cache_set. split; intros Ht.
  - apply cache_get_fresh with (ts := T); [apply lookup_insert_eq |].
    unfold CACHE_TTL_SECONDS. lia.
  - rewrite (cache_get_stale t key T value); [| apply lookup_insert_eq |].
    + split; [done |]. apply lookup_delete_eq.
    + unfold CACHE_TTL_SECONDS. lia.
Qed.

Lemma cache_ttl_witness :
  cache_get 15000000 "binance::BTCUSDT::1m::300"
            (cache_set 0 "binance::BTCUSDT::1m::300" [1; 2; 3]%nat ∅)
    = (Some [1; 2; 3]%nat, cache_set 0 "binance::BTCUSDT::1m::300" [1; 2; 3]%nat ∅)
  ∧ cache_get 15000001 "binance::BTCUSDT::1m::300"
            (cache_set 0 "binance::BTCUSDT::1m::300" [1; 2; 3]%nat ∅)
    = (None, delete "binance::BTCUSDT::1m::300"
               (cache_set 0 "binance::BTCUSDT::1m::300" [1; 2; 3]%nat ∅)).
Proof.
  split.
  - apply (cache_ttl "binance::BTCUSDT::1m::300" [1; 2; 3]%nat 0 15000000 ∅).
    unfold timedelta_seconds. lia.
  - apply (cache_ttl "binance::BTCUSDT::1m::300" [1; 2; 3]%nat 0 15000001 ∅).
    unfold timedelta_seconds. lia.
Defined.

(** ** The stable sort *)

Section stable_sort_properties.
Context {A : Type} (R : relation A) `{!∀ x y, Decision (R x y)}.

Lemma insert_sorted_Permutation x l : insert_sorted R x l ≡ₚ x :: l.
Proof.
  induction l as [| y l IH]; [done |]. cbn [insert_sorted].
  case_decide; [done |]. rewrite IH. apply Permutation_swap.
Qed.

Lemma stable_sort_Permutation l : stable_sort R l ≡ₚ l.
Proof.
  induction l as [| x l IH]; [done |]. cbn [stable_sort foldr].
  rewrite insert_sorted_Permutation. by f_equiv.
Qed.

Lemma insert_sorted_StronglySorted `{!Total R, !Transitive R} x l :
  StronglySorted R l → StronglySorted R (insert_sorted R x l).
Proof.
  induction 1 as [| y l Hl IH Hy]; cbn [insert_sorted]; [repeat constructor |].
  case_decide as Hxy.
  - constructor; [by constructor |]. constructor; [done |].
    eapply Forall_impl; [exact Hy |]. intros z Hz. by trans y.
  - constructor; [done |]. rewrite insert_sorted_Permutation.
    constructor; [| done]. by destruct (total R x y).
Qed.

Lemma StronglySorted_stable_sort `{!Total R, !Transitive R} l :
  StronglySorted R (stable_sort R l).
Proof.
  induction l as [| x l IH]; [constructor |]. cbn [stable_sort foldr].
  by apply insert_sorted_StronglySorted.
Qed.

Lemma Sorted_stable_sort `{!Total R, !Transitive R} l : Sorted R (stable_sort R l).
Proof. apply StronglySorted_Sorted, StronglySorted_stable_sort. Qed.

(** A list that is in order already is left as it is. *)
Lemma stable_sort_ordered l : StronglySorted R l → stable_sort R l = l.
Proof.
  induction 1 as [| x l Hl IH Hx]; [done |]. cbn [stable_sort foldr].
  fold (stable_sort R l). rewrite IH. destruct l as [| y l]; [done |].
  cbn [insert_sorted]. apply Forall_cons_1 in Hx as [Hxy _]. by case_decide.
Qed.


End stable_sort_properties.

(** ** Normalisation of client windows *)

#[global] Instance ts_le_total : Total ts_le.
Proof. intros a b. unfold ts_le. lia. Qed.
#[global] Instance ts_le_trans : Transitive ts_le.
Proof. intros a b c. unfold ts_le. lia. Qed.
#[global] Instance raw_ts_le_total : Total raw_ts_le.
Proof. intros a b. unfold raw_ts_le. lia. Qed.
#[global] Instance raw_ts_le_trans : Transitive raw_ts_le.
Proof. intros a b c. unfold raw_ts_le. lia. Qed.

Lemma sort_values_sorted df : Sorted Z.le (timestamp <$> sort_values df).
Proof.
  apply (Sorted_fmap timestamp ts_le Z.le); [done |].
  apply (Sorted_stable_sort ts_le).
Qed.

Lemma sort_values_perm df : sort_values df ≡ₚ df.
Proof. apply stable_sort_Permutation. Qed.

Lemma candles_to_df_inv td obj df :
  candles_to_df td obj = Ok df →
  ∃ read, td (w_timestamp obj) = Some read
          ∧ df = sort_values (clean_frame (window_rows (read <$> w_timestamp obj) obj)).
Proof.
  unfold candles_to_df. intros H.
  destruct (td (w_timestamp obj)) as [read |] eqn:Hts; [| discriminate].
  exists read. split; [done |].
  case_bool_decide; [| discriminate].
  by injection H as <-.
Qed.

(** C9, as stated, fails: a window that repeats an instant is normalised to
    a series that repeats it. *)
Lemma candles_to_df_duplicate_timestamps :
  candles_to_df Sample.parse_iso_list Sample.dup_window
    = Ok [Candle Sample.midnight 1 2 0 1 0;
          Candle (Sample.midnight + minute_ns) 3 4 2 3 0;
          Candle (Sample.midnight + minute_ns) 3 4 2 3 0]
  ∧ ¬ strictly_ascending
        [Candle Sample.midnight 1 2 0 1 0;
         Candle (Sample.midnight + minute_ns) 3 4 2 3 0;
         Candle (Sample.midnight + minute_ns) 3 4 2 3 0].
Proof.
  split; [vm_compute; reflexivity |].
  unfold strictly_ascending. simpl. intros Hs.
  apply Sorted_inv in Hs as [Hs _].
  apply Sorted_inv in Hs as [_ Hd].
  apply HdRel_inv in Hd. lia.
Qed.

(** C9, amended.  The series normalised from a client window is ordered by
    timestamp ascending, not strictly: it holds every row of the window
    whose open, high, low and close are defined exactly once, rows with
    equal timestamps included. *)
Theorem candles_to_df_ascending td (obj : CandleWindow) (df : list candle) :
  candles_to_df td obj = Ok df →
  Sorted Z.le (timestamp <$> df)
  ∧ ∃ read, td (w_timestamp obj) = Some read
            ∧ df ≡ₚ clean_frame (window_rows (read <$> w_timestamp obj) obj).
Proof.
  intros H. apply candles_to_df_inv in H as (read & Hts & ->).
  split; [apply sort_values_sorted |].
  exists read. split; [done | apply sort_values_perm].
Qed.

Lemma candles_to_df_ascending_witness :
  Sorted Z.le (timestamp <$>
    [Candle Sample.midnight 1 2 0 1 0;
     Candle (Sample.midnight + minute_ns) 3 4 2 3 0;
     Candle (Sample.midnight + minute_ns) 3 4 2 3 0]).
Proof.
  apply (candles_to_df_ascending Sample.parse_iso_list Sample.dup_window).
  vm_compute; reflexivity.
Defined.

(** ** Aggregation *)

Lemma Qle_bool_false x y : Qle_bool x y = false → (y <= x)%Q.
Proof.
  intros H. destruct (Qlt_le_dec x y) as [Hlt | Hle]; [| done].
  apply Qlt_le_weak, Qle_bool_iff in Hlt. congruence.
Qed.

Lemma Qltb_true x y : Qltb x y = true ↔ (x < y)%Q.
Proof.
  unfold Qltb. rewrite negb_true_iff. split.
  - intros H. apply Qnot_le_lt. intros Hle. apply Qle_bool_iff in Hle. congruence.
  - intros H. destruct (Qle_bool y x) eqn:E; [| done].
    apply Qle_bool_iff in E. exfalso. by apply (Qlt_not_le x y).
Qed.

Lemma Qltb_false x y : Qltb x y = false ↔ (y <= x)%Q.
Proof.
  unfold Qltb. rewrite negb_false_iff. apply Qle_bool_iff.
Qed.

Lemma foldl_Qmax2_spec l x :
  foldl Qmax2 x l ∈ x :: l ∧ ∀ y, y ∈ x :: l → (y <= foldl Qmax2 x l)%Q.
Proof.
  revert x. induction l as [| a l IH]; intros x; simpl.
  - split; [left |]. intros y Hy. apply list_elem_of_singleton in Hy as ->. apply Qle_refl.
  - destruct (IH (Qmax2 x a)) as [Hin Hub]. split.
    + apply elem_of_cons in Hin as [-> | Hin]; [| by do 2 right].
      unfold Qmax2. destruct (Qle_bool x a); [right; left | left].
    + intros y Hy.
      assert (Hxa : (x <= Qmax2 x a)%Q ∧ (a <= Qmax2 x a)%Q).
      { unfold Qmax2. destruct (Qle_bool x a) eqn:E.
        - split; [by apply Qle_bool_iff | apply Qle_refl].
        - split; [apply Qle_refl | by apply Qle_bool_false]. }
      destruct Hxa as [Hx Ha].
      apply elem_of_cons in Hy as [-> | Hy].
      * eapply Qle_trans; [exact Hx |]. apply Hub. left.
      * apply elem_of_cons in Hy as [-> | Hy].
        -- eapply Qle_trans; [exact Ha |]. apply Hub. left.
        -- apply Hub. by right.
Qed.

Lemma foldl_Qmin2_spec l x :
  foldl Qmin2 x l ∈ x :: l ∧ ∀ y, y ∈ x :: l → (foldl Qmin2 x l <= y)%Q.
Proof.
  revert x. induction l as [| a l IH]; intros x; simpl.
  - split; [left |]. intros y Hy. apply list_elem_of_singleton in Hy as ->. apply Qle_refl.
  - destruct (IH (Qmin2 x a)) as [Hin Hlb]. split.
    + apply elem_of_cons in Hin as [-> | Hin]; [| by do 2 right].
      unfold Qmin2. destruct (Qle_bool x a); [left | right; left].
    + intros y Hy.
      assert (Hxa : (Qmin2 x a <= x)%Q ∧ (Qmin2 x a <= a)%Q).
      { unfold Qmin2. destruct (Qle_bool x a) eqn:E.
        - split; [apply Qle_refl | by apply Qle_bool_iff].
        - split; [by apply Qle_bool_false | apply Qle_refl]. }
      destruct Hxa as [Hx Ha].
      apply elem_of_cons in Hy as [-> | Hy].
      * eapply Qle_trans; [| exact Hx]. apply Hlb. left.
      * apply elem_of_cons in Hy as [-> | Hy].
        -- eapply Qle_trans; [| exact Ha]. apply Hlb. left.
        -- apply Hlb. by right.
Qed.

Lemma elem_of_defined (col : list (option Q)) x : x ∈ omap id col ↔ Some x ∈ col.
Proof.
  rewrite list_elem_of_omap. split.
  - intros (o & Ho & Heq). simpl in Heq. by subst.
  - intros H. by exists (Some x).
Qed.

Lemma agg_max_spec col v : agg_max col = Some v → max_defined col (Some v).
Proof.
  unfold agg_max. destruct (omap id col) as [| x r] eqn:E; [done |].
  intros [= <-]. destruct (foldl_Qmax2_spec r x) as [Hin Hub].
  exists (foldl Qmax2 x r). split; [done |]. split.
  - apply elem_of_defined. by rewrite E.
  - intros y Hy. apply Hub. rewrite <- E. by apply elem_of_defined.
Qed.

Lemma agg_min_spec col v : agg_min col = Some v → min_defined col (Some v).
Proof.
  unfold agg_min. destruct (omap id col) as [| x r] eqn:E; [done |].
  intros [= <-]. destruct (foldl_Qmin2_spec r x) as [Hin Hlb].
  exists (foldl Qmin2 x r). split; [done |]. split.
  - apply elem_of_defined. by rewrite E.
  - intros y Hy. apply Hlb. rewrite <- E. by apply elem_of_defined.
Qed.

Lemma agg_first_spec col v : agg_first col = Some v → first_defined col (Some v).
Proof.
  unfold agg_first. induction col as [| [c |] col IH]; simpl; [done | |].
  - intros [= <-]. exists [], c, col. by repeat split.
  - intros H. destruct (IH H) as (pre & x & post & -> & Hpre & Hx).
    exists (None :: pre), x, post. repeat split; [| done]. by constructor.
Qed.

Lemma omap_id_app (l1 l2 : list (option Q)) :
  omap id (l1 ++ l2) = omap id l1 ++ omap id l2.
Proof. apply omap_app. Qed.

Lemma agg_last_spec col v : agg_last col = Some v → last_defined col (Some v).
Proof.
  unfold agg_last. induction col as [| c col IH] using rev_ind; [done |].
  rewrite omap_id_app. destruct c as [c |]; simpl.
  - rewrite last_snoc. intros [= <-]. exists col, c, []. by repeat split.
  - rewrite app_nil_r. intros H.
    destruct (IH H) as (pre & x & post & -> & Hpost & Hx).
    exists pre, x, (post ++ [None]). rewrite <- app_assoc. repeat split; [| done].
    apply Forall_app. split; [done | by constructor].
Qed.

Lemma agg_defined_iff (agg : list (option Q) → option Q) col :
  (agg = agg_first ∨ agg = agg_last ∨ agg = agg_max ∨ agg = agg_min) →
  is_Some (agg col) ↔ has_defined col.
Proof.
  intros Hagg. unfold has_defined.
  assert (Hne : omap id col ≠ [] ↔ ∃ x, Some x ∈ col).
  { split.
    - destruct (omap id col) as [| x r] eqn:E; [done |]. intros _. exists x.
      apply elem_of_defined. rewrite E. left.
    - intros [x Hx] E. apply elem_of_defined in Hx. rewrite E in Hx.
      by apply elem_of_nil in Hx. }
  rewrite <- Hne.
  assert (Hhead : is_Some (head (omap id col)) ↔ omap id col ≠ []).
  { destruct (omap id col); simpl; split; intros H;
      first [done | by destruct H | by eexists]. }
  assert (Hlast : is_Some (last (omap id col)) ↔ omap id col ≠ []).
  { destruct (omap id col) as [| x r _] using rev_ind; simpl; split; intros H;
      first [done | by destruct H | by destruct r | rewrite last_snoc; by eexists]. }
  destruct Hagg as [-> | [-> | [-> | ->]]];
    unfold agg_first, agg_last, agg_max, agg_min; [done | done | |];
    destruct (omap id col); simpl; split; intros H;
      first [done | by destruct H | by eexists].
Qed.

Lemma offset_map_pos tf w : offset_map tf = Some w → 0 < w.
Proof.
  unfold offset_map, minute_ns.
  repeat (case (String.eqb tf _); [intros [= <-]; lia |]). done.
Qed.

Lemma offset_map_not_1m tf w : offset_map tf = Some w → String.eqb tf "1m" = false.
Proof.
  destruct (String.eqb_spec tf "1m") as [-> | Hne]; [| done].
  vm_compute. discriminate.
Qed.

Lemma bin_start_spec w t s :
  0 < w → bin_start w t = s ↔ (∃ k, s = k * w) ∧ s ≤ t < s + w.
Proof.
  intros Hw. unfold bin_start. split.
  - intros <-. split; [by eexists |].
    pose proof (Z.mul_div_le t w Hw). pose proof (Z.mul_succ_div_gt t w Hw). lia.
  - intros [[k ->] Ht]. f_equal. symmetry. apply Z.div_unique with (r := t - k * w); lia.
Qed.

Lemma bin_start_mono w t1 t2 : 0 < w → t1 ≤ t2 → bin_start w t1 ≤ bin_start w t2.
Proof.
  intros Hw Ht. unfold bin_start.
  apply Z.mul_le_mono_nonneg_r; [lia |]. by apply Z.div_le_mono.
Qed.

(** A bucket holds the rows of the frame whose instants lie in its bin. *)
Lemma elem_of_bucket w s df x :
  0 < w → x ∈ bucket w s df ↔
          x ∈ df ∧ (∃ k, s = k * w) ∧ s ≤ r_timestamp x < s + w.
Proof.
  intros Hw. unfold bucket, sort_values_raw.
  rewrite list_elem_of_filter, stable_sort_Permutation, bin_start_spec by done.
  tauto.
Qed.

Lemma StronglySorted_filter {A} (R : relation A) (P : A → Prop)
    `{∀ x, Decision (P x)} (l : list A) :
  StronglySorted R l → StronglySorted R (filter P l).
Proof.
  induction 1 as [| x l Hl IH Hx]; [constructor |].
  rewrite filter_cons. case_decide; [| done].
  constructor; [done |].
  apply Forall_forall. intros y Hy. apply list_elem_of_filter in Hy as [_ Hy].
  rewrite Forall_forall in Hx. by apply Hx.
Qed.

Lemma StronglySorted_seqZ m n : StronglySorted Z.lt (seqZ m n).
Proof.
  destruct (decide (n ≤ 0)) as [Hn | Hn]; [rewrite seqZ_nil by done; constructor |].
  rewrite <- (Z2Nat.id n) by lia. generalize (Z.to_nat n) as k. clear n Hn.
  intros k. revert m. induction k as [| k IH]; intros m.
  - rewrite seqZ_nil by done. constructor.
  - rewrite seqZ_cons by lia. replace (Z.pred (Z.of_nat (S k))) with (Z.of_nat k) by lia.
    constructor; [apply IH |].
    apply Forall_forall. intros y Hy. apply elem_of_seqZ in Hy. lia.
Qed.

(** The bins [resample] lays out, when the frame is not empty. *)
Lemma resample_bins w df a b :
  head (sort_values_raw df) = Some a → last (sort_values_raw df) = Some b →
  resample w df =
    (λ k, let s := bin_start w (r_timestamp a) + k * w in (s, bucket w s df))
      <$> seqZ 0 ((bin_start w (r_timestamp b) - bin_start w (r_timestamp a)) `div` w + 1).
Proof. intros Ha Hb. unfold resample. by rewrite Ha, Hb. Qed.

Lemma resample_ohlcv_elem w df r :
  r ∈ resample_ohlcv w df →
  row_complete r = true ∧ r = ohlcv_reduce (r_timestamp r, bucket w (r_timestamp r) df).
Proof.
  unfold resample_ohlcv. rewrite list_elem_of_filter. intros [Hc Hr].
  split; [done |].
  apply list_elem_of_fmap in Hr as (bin & -> & Hbin).
  destruct (head (sort_values_raw df)) as [a |] eqn:Ha;
    [| unfold resample in Hbin; rewrite Ha in Hbin; by apply elem_of_nil in Hbin].
  destruct (last (sort_values_raw df)) as [b |] eqn:Hb;
    [| unfold resample in Hbin; rewrite Ha, Hb in Hbin; by apply elem_of_nil in Hbin].
  rewrite (resample_bins w df a b) in Hbin by done.
  apply list_elem_of_fmap in Hbin as (k & -> & _). done.
Qed.


Lemma sorted_bounds df a b x :
  head (sort_values_raw df) = Some a → last (sort_values_raw df) = Some b →
  x ∈ df → r_timestamp a ≤ r_timestamp x ≤ r_timestamp b.
Proof.
  intros Ha Hb Hx.
  assert (Hs : StronglySorted raw_ts_le (sort_values_raw df))
    by apply (StronglySorted_stable_sort raw_ts_le).
  assert (Hx' : x ∈ sort_values_raw df)
    by (unfold sort_values_raw; by rewrite stable_sort_Permutation).
  split.
  - apply head_Some in Ha as [l' Hl]. rewrite Hl in Hs, Hx'.
    apply StronglySorted_inv in Hs as [_ Hall].
    apply elem_of_cons in Hx' as [-> | Hx']; [lia |].
    rewrite Forall_forall in Hall. by apply Hall.
  - apply last_Some in Hb as [l' Hl]. rewrite Hl in Hs, Hx'.
    apply elem_of_app in Hx' as [Hx' | Hx'].
    + apply (StronglySorted_app_1_elem_of raw_ts_le l' [b] x b Hs Hx'). left.
    + apply list_elem_of_singleton in Hx' as ->. lia.
Qed.

Lemma resample_ohlcv_complete w df x :
  0 < w → x ∈ df →
  let s := bin_start w (r_timestamp x) in
  row_complete (ohlcv_reduce (s, bucket w s df)) = true →
  ohlcv_reduce (s, bucket w s df) ∈ resample_ohlcv w df.
Proof.
  intros Hw Hx s Hc. unfold resample_ohlcv.
  apply list_elem_of_filter. split; [done |].
  apply list_elem_of_fmap_2.
  assert (Hx' : x ∈ sort_values_raw df)
    by (unfold sort_values_raw; by rewrite stable_sort_Permutation).
  destruct (head (sort_values_raw df)) as [a |] eqn:Ha;
    [| apply head_None in Ha; rewrite Ha in Hx'; by apply elem_of_nil in Hx'].
  destruct (last (sort_values_raw df)) as [b |] eqn:Hb;
    [| apply last_None in Hb; rewrite Hb in Hx'; by apply elem_of_nil in Hx'].
  rewrite (resample_bins w df a b) by done.
  destruct (sorted_bounds df a b x Ha Hb Hx) as [Hlo Hhi].
  pose proof (bin_start_mono w _ _ Hw Hlo) as Hlo'.
  pose proof (bin_start_mono w _ _ Hw Hhi) as Hhi'.
  fold s in Hlo', Hhi'.
  unfold bin_start in *.
  set (ka := r_timestamp a `div` w) in *.
  set (kb := r_timestamp b `div` w) in *.
  set (kx := r_timestamp x `div` w) in *.
  apply list_elem_of_fmap. exists (kx - ka). split.
  - simpl. replace (ka * w + (kx - ka) * w) with s by (subst s; lia). done.
  - apply elem_of_seqZ.
    replace (kb * w - ka * w) with ((kb - ka) * w) by lia.
    rewrite Z.div_mul by lia. subst s. nia.
Qed.








Lemma row_complete_reduce s rows :
  row_complete (ohlcv_reduce (s, rows)) = true ↔
  has_defined (r_open <$> rows) ∧ has_defined (r_high <$> rows) ∧
  has_defined (r_low <$> rows) ∧ has_defined (r_close <$> rows).
Proof.
  unfold row_complete, ohlcv_reduce. simpl.
  rewrite !andb_true_iff, !bool_decide_eq_true.
  rewrite (agg_defined_iff agg_first), (agg_defined_iff agg_max),
    (agg_defined_iff agg_min), (agg_defined_iff agg_last) by tauto.
  split; [tauto |]. intros (? & ? & ? & ?). repeat split; first [done | by eexists].
Qed.

Lemma resample_ohlcv_row w df r :
  r ∈ resample_ohlcv w df →
  let rows := bucket w (r_timestamp r) df in
  first_defined (r_open <$> rows) (r_open r)
  ∧ max_defined (r_high <$> rows) (r_high r)
  ∧ min_defined (r_low <$> rows) (r_low r)
  ∧ last_defined (r_close <$> rows) (r_close r)
  ∧ r_volume r = Some (Qsum (omap id (r_volume <$> rows))).
Proof.
  intros Hr rows. destruct (resample_ohlcv_elem w df r Hr) as [Hc Heq].
  fold rows in Heq.
  pose proof (f_equal r_open Heq) as Ho.
  pose proof (f_equal r_high Heq) as Hh.
  pose proof (f_equal r_low Heq) as Hl.
  pose proof (f_equal r_close Heq) as Hcl.
  pose proof (f_equal r_volume Heq) as Hv.
  simpl in Ho, Hh, Hl, Hcl, Hv.
  unfold row_complete in Hc.
  rewrite !andb_true_iff, !bool_decide_eq_true in Hc.
  destruct Hc as [[[[[o Eo] [h Eh]] [l El]] [c Ec]] _].
  rewrite Eo in Ho |- *. rewrite Eh in Hh |- *.
  rewrite El in Hl |- *. rewrite Ec in Hcl |- *.
  repeat split.
  - by apply agg_first_spec.
  - by apply agg_max_spec.
  - by apply agg_min_spec.
  - by apply agg_last_spec.
  - done.
Qed.





(** On a frame that is in time order a bucket is a stretch of the frame. *)
Lemma bucket_of_ordered w s df :
  time_ordered df → bucket w s df = filter (λ r, bin_start w (r_timestamp r) = s) df.
Proof.
  intros Hdf. unfold bucket, sort_values_raw. by rewrite stable_sort_ordered.
Qed.

(** Three rows with the same instant: the aggregated row opens at the
    open of the first and closes at the close of the last. *)
Lemma aggregate_ties_in_input_order :
  aggregate_from_1m true Sample.tied_frame "15m"
  = Ok [RawCandle Sample.midnight (Some 10%Q) (Some 40%Q) (Some 5%Q) (Some 32%Q)
                  (Some 3%Q)].
Proof. vm_compute. reflexivity. Qed.




(** ** Feature engine: the fallback RSI *)

(** Where the average loss is zero the guard turns the quotient into 0. *)
Lemma rs_cell_zero_loss up : rs_cell up (Some 0%Q) = 0%Q.
Proof. by destruct up. Qed.

Lemma rsi_of_rs_zero : (rsi_of_rs 0 == 0)%Q.
Proof. reflexivity. Qed.

Lemma rolling_lookup {A} k (usable : A → option Q) agg (col : list A) i v :
  rolling k usable agg col !! i = Some (Some v) →
  ∃ w vals, window k i col = Some w ∧ mapM usable w = Some vals ∧ v = agg vals.
Proof.
  unfold rolling. rewrite list_lookup_imap.
  destruct (col !! i) as [x |]; [| done]. simpl.
  destruct (window k i col) as [w |]; [| done]. simpl.
  destruct (mapM usable w) as [vals |] eqn:Hvals; [| done]. simpl.
  intros [= <-]. by exists w, vals.
Qed.

Lemma window_elem {A} k i (col : list A) w x :
  window k i col = Some w → x ∈ w →
  ∃ j, (S i - k ≤ j ≤ i)%nat ∧ col !! j = Some x.
Proof.
  unfold window.
  destruct (Nat.leb_spec k (S i)) as [Hk |]; [| done].
  destruct (_ <? _)%nat; [| done]. simpl. intros [= <-] Hx.
  apply list_elem_of_lookup in Hx as [n Hn].
  apply lookup_take_Some in Hn as [Hn Hlt]. rewrite lookup_drop in Hn.
  exists (S i - k + n)%nat. split; [lia | done].
Qed.

Lemma Qsum_zero vals : Forall (λ v, v == 0)%Q vals → (Qsum vals == 0)%Q.
Proof.
  induction 1 as [| v vals Hv _ IH]; [reflexivity |].
  unfold Qsum in *. cbn [foldr]. rewrite Hv, IH. reflexivity.
Qed.

Lemma Qmean_zero vals : Forall (λ v, v == 0)%Q vals → (Qmean vals == 0)%Q.
Proof.
  intros H. unfold Qmean, Qdiv. rewrite (Qsum_zero vals H). ring.
Qed.

Lemma clip_upper0_no_loss d : (0 <= d)%Q → ((if Qltb 0 d then 0 else d) == 0)%Q.
Proof.
  intros Hd. destruct (Qltb 0 d) eqn:E; [reflexivity |].
  apply Qltb_false in E. by apply Qle_antisym.
Qed.

(** In the fallback path, a row whose last fourteen deltas hold no loss
    gets the quotient 0 from the guard, hence an RSI of 0. *)
Lemma fallback_rsi_without_losses c i r :
  fallback_rsi c !! i = Some r → no_loss_before c i → (r == 0)%Q.
Proof.
  unfold fallback_rsi. intros Hr Hno.
  apply lookup_zip_with_Some in Hr as (u & d & -> & _ & Hd).
  enough (rs_cell u d = 0%Q) as -> by apply rsi_of_rs_zero.
  destruct u as [u |], d as [d |]; try done.
  rewrite list_lookup_fmap in Hd.
  destruct (rolling 14 id Qmean (clip_upper0 (diff c)) !! i) as [[m |] |] eqn:Hm;
    [| done | done].
  injection Hd as <-.
  apply rolling_lookup in Hm as (w & vals & Hw & Hvals & ->).
  assert (Hzero : Forall (λ v, v == 0)%Q vals).
  { apply Forall_forall. intros v Hv.
    apply mapM_Some in Hvals.
    apply list_elem_of_lookup in Hv as [n Hn].
    destruct (Forall2_lookup_r _ _ _ _ _ Hvals Hn) as (x & Hx & Hid).
    simpl in Hid. subst x.
    apply list_elem_of_lookup_2 in Hx.
    destruct (window_elem _ _ _ _ _ Hw Hx) as (j & Hj & Hcol).
    unfold clip_upper0 in Hcol. rewrite list_lookup_fmap in Hcol.
    destruct (diff c !! j) as [[dj |] |] eqn:Hdj; try done.
    injection Hcol as <-. apply clip_upper0_no_loss.
    apply (Hno j dj); [lia | done]. }
  unfold rs_cell.
  assert (Hd0 : (- Qmean vals == 0)%Q) by (rewrite (Qmean_zero vals Hzero); reflexivity).
  apply Qeq_bool_iff in Hd0. by rewrite Hd0.
Qed.

Lemma fallback_features_row sqrt df lst :
  lst ∈ fallback_features sqrt df →
  ∃ i, df !! i = Some (f_candle lst)
       ∧ fallback_rsi (close <$> df) !! i = Some (rsi14 lst)
       ∧ rolling 14 Some Qmean (true_range df) !! i = Some (Some (atr14 lst)).
Proof.
  unfold fallback_features. intros Hin.
  apply list_elem_of_omap in Hin as (cells & Hcells & Hdrop).
  apply list_elem_of_lookup in Hcells as [i Hi].
  unfold assemble in Hi. rewrite list_lookup_imap in Hi.
  destruct (df !! i) as [r |] eqn:Hr; [| done].
  injection Hi as <-. exists i.
  unfold dropna_row in Hdrop. cbn in Hdrop.
  destruct (xnum_isna _); [done |].
  repeat match type of Hdrop with
         | match ?x with _ => _ end = _ => destruct x eqn:?; [| done]
         end.
  injection Hdrop as <-. cbn. split; [done |]. split.
  - match goal with
    | H : col_at (Some <$> zip_with _ _ _) i = Some ?q |- _ =>
        unfold col_at in H; rewrite list_lookup_fmap in H;
        unfold fallback_rsi;
        destruct (zip_with _ _ _ !! i); [by injection H as -> | done]
    end.
  - match goal with
    | H : col_at (rolling 14 Some Qmean (true_range df)) i = Some ?q |- _ =>
        unfold col_at in H;
        destruct (rolling 14 Some Qmean (true_range df) !! i) as [[a |] |];
        [by injection H as -> | done | done]
    end.
Qed.

(** The general form of the C3 evaluation below: whichever the series, a
    feature row of the fallback path whose last fourteen deltas hold no loss
    has [rsi14] equal to 0. *)
Lemma fallback_rsi14_without_losses sqrt df lst :
  lst ∈ fallback_features sqrt df →
  ∃ i, df !! i = Some (f_candle lst)
       ∧ (no_loss_before (close <$> df) i → (rsi14 lst == 0)%Q).
Proof.
  intros Hin.
  destruct (fallback_features_row sqrt df lst Hin) as (i & Hrow & Hrsi & _).
  exists i. split; [done |]. by apply fallback_rsi_without_losses.
Qed.

(** C3, evaluated.  On twenty rising closes with [pandas_ta] missing, the
    last fourteen deltas are all positive, and the [rsi14] of the last
    feature row is 0, not 100. *)
Theorem fallback_rsi_of_rising_series :
  Forall (λ d, ∃ x, d = Some x ∧ (0 < x)%Q)
         (drop 6 (diff (close <$> Sample.rising)))
  ∧ ∃ lst, last (compute_features Sample.sqrt8 None Sample.rising) = Some lst
           ∧ (rsi14 lst == 0)%Q ∧ ¬ (rsi14 lst == 100)%Q.
Proof.
  split.
  - vm_compute. repeat (constructor; [by eexists |]). constructor.
  - eexists. split; [vm_compute; reflexivity |]. split; vm_compute; done.
Qed.

(** ** Heuristic strategy *)

Lemma py_max_ge_r a b : (b <= py_max a b)%Q.
Proof.
  unfold py_max. destruct (Qltb a b) eqn:E; [apply Qle_refl |].
  by apply Qltb_false.
Qed.

Lemma atr_proxy_pos sqrt df atr : (0 <= atr)%Q → (0 < atr_proxy sqrt df atr)%Q.
Proof.
  intros Hatr. unfold atr_proxy. destruct (Qeq_bool atr 0) eqn:E.
  - eapply Qlt_le_trans; [| apply py_max_ge_r]. reflexivity.
  - apply Qeq_bool_neq in E. apply Qle_lteq in Hatr as [Hlt | Heq]; [done |].
    exfalso. apply E. by symmetry.
Qed.

Lemma compute_features_nil sqrt ta : compute_features sqrt ta [] = [].
Proof. reflexivity. Qed.

Lemma heuristic_signal_eq sqrt ta df lst :
  last (compute_features sqrt ta df) = Some lst →
  ∃ row, last df = Some row ∧
    heuristic_signal_from_df sqrt ta df =
      let label := heuristic_label (ema8 lst) (ema21 lst) (ema50 lst) (rsi14 lst) in
      let atr := atr_proxy sqrt df (atr14 lst) in
      MkSignal label (heuristic_confidence label (ema8 lst) (ema50 lst) (rsi14 lst))
               (close row) (stop_level label (close row) atr)
               (target_level label (close row) atr).
Proof.
  intros Hlast. unfold heuristic_signal_from_df.
  destruct (last df) as [row |] eqn:Hrow.
  - exists row. split; [done |]. by rewrite Hlast.
  - apply last_None in Hrow. subst df. by rewrite compute_features_nil in Hlast.
Qed.

Lemma heuristic_label_long e8 e21 e50 rsi :
  (e21 < e8)%Q → (e50 < e21)%Q → (50 < rsi)%Q →
  heuristic_label e8 e21 e50 rsi = "long".
Proof.
  intros H1 H2 H3. unfold heuristic_label, Qgtb.
  by rewrite (proj2 (Qltb_true _ _) H1), (proj2 (Qltb_true _ _) H2),
    (proj2 (Qltb_true _ _) H3).
Qed.

Lemma heuristic_label_short e8 e21 e50 rsi :
  (e8 < e21)%Q → (e21 < e50)%Q → (rsi < 50)%Q →
  heuristic_label e8 e21 e50 rsi = "short".
Proof.
  intros H1 H2 H3. unfold heuristic_label, Qgtb.
  rewrite (proj2 (Qltb_false e21 e8) (Qlt_le_weak _ _ H1)). simpl.
  by rewrite (proj2 (Qltb_true _ _) H1), (proj2 (Qltb_true _ _) H2),
    (proj2 (Qltb_true _ _) H3).
Qed.

Lemma heuristic_label_none e8 e21 e50 rsi :
  ¬ ((e21 < e8)%Q ∧ (e50 < e21)%Q ∧ (50 < rsi)%Q) →
  ¬ ((e8 < e21)%Q ∧ (e21 < e50)%Q ∧ (rsi < 50)%Q) →
  heuristic_label e8 e21 e50 rsi = "none".
Proof.
  intros Hl Hs. unfold heuristic_label, Qgtb.
  destruct (Qltb e21 e8 && Qltb e50 e21 && Qltb 50 rsi) eqn:E1.
  - rewrite !andb_true_iff, !Qltb_true in E1. tauto.
  - destruct (Qltb e8 e21 && Qltb e21 e50 && Qltb rsi 50) eqn:E2; [| done].
    rewrite !andb_true_iff, !Qltb_true in E2. tauto.
Qed.

Lemma py_max_ge_l a b : (a <= py_max a b)%Q.
Proof.
  unfold py_max. destruct (Qltb a b) eqn:E; [| apply Qle_refl].
  apply Qltb_true in E. by apply Qlt_le_weak.
Qed.

Lemma py_min_le_r a b : (py_min a b <= b)%Q.
Proof.
  unfold py_min. destruct (Qltb b a) eqn:E; [apply Qle_refl |].
  by apply Qltb_false.
Qed.

Lemma shift_1_head {A} (col : list A) j :
  shift 1 col !! j = Some None → j = 0%nat.
Proof.
  unfold shift. intros H. apply lookup_take_Some in H as [H _].
  destruct j as [| j]; [done |].
  change ((Some <$> col) !! j = Some None) in H.
  rewrite list_lookup_fmap in H. by destruct (col !! j).
Qed.

Lemma true_range_nonneg df j tr :
  first_candle_upright df → true_range df !! j = Some tr → (0 <= tr)%Q.
Proof.
  intros Hfirst Htr. unfold true_range in Htr.
  apply lookup_zip_with_Some in Htr as (r & p & -> & Hr & Hp).
  destruct p as [pc |].
  - pose proof (py_max_ge_r (high r) pc). pose proof (py_min_le_r (low r) pc). lra.
  - apply shift_1_head in Hp as ->.
    assert (low r <= high r)%Q by (apply Hfirst; by destruct df; simplify_eq/=).
    lra.
Qed.

Lemma Qsum_nonneg vals : Forall (λ v, 0 <= v)%Q vals → (0 <= Qsum vals)%Q.
Proof.
  induction 1 as [| v vals Hv _ IH]; [apply Qle_refl |].
  unfold Qsum in *. cbn [foldr]. lra.
Qed.

Lemma Qmean_nonneg vals : Forall (λ v, 0 <= v)%Q vals → (0 <= Qmean vals)%Q.
Proof.
  intros H. unfold Qmean, Qdiv. apply Qmult_le_0_compat; [by apply Qsum_nonneg |].
  apply Qinv_le_0_compat. unfold Qle. simpl. lia.
Qed.

(** In the fallback path the ATR of a feature row is not negative as long
    as the first candle is upright; every later true range is the spread of
    three prices. *)
Lemma fallback_atr_nonneg sqrt df lst :
  first_candle_upright df → lst ∈ fallback_features sqrt df → (0 <= atr14 lst)%Q.
Proof.
  intros Hfirst Hin.
  destruct (fallback_features_row sqrt df lst Hin) as (i & _ & _ & Hatr).
  apply rolling_lookup in Hatr as (w & vals & Hw & Hvals & ->).
  apply Qmean_nonneg, Forall_forall. intros v Hv.
  apply mapM_Some in Hvals.
  apply list_elem_of_lookup in Hv as [n Hn].
  destruct (Forall2_lookup_r _ _ _ _ _ Hvals Hn) as (x & Hx & [= ->]).
  apply list_elem_of_lookup_2 in Hx.
  destruct (window_elem _ _ _ _ _ Hw Hx) as (j & _ & Hcol).
  by eapply true_range_nonneg.
Qed.

Lemma compute_features_without_ta sqrt df :
  compute_features sqrt None df = [] ∨
  compute_features sqrt None df = fallback_features sqrt df.
Proof.
  unfold compute_features. destruct (_ <? _)%nat; [by left | by right].
Qed.

(** With [pandas_ta] missing and an upright first candle, the ATR of the
    last feature row is not negative. *)
Lemma last_atr_nonneg_without_ta sqrt df lst :
  first_candle_upright df →
  last (compute_features sqrt None df) = Some lst → (0 <= atr14 lst)%Q.
Proof.
  intros Hfirst Hlast.
  destruct (compute_features_without_ta sqrt df) as [E | E]; rewrite E in Hlast;
    [done |].
  apply (fallback_atr_nonneg sqrt df); [done |]. by apply last_Some_elem_of.
Qed.

(** C7, as stated, fails: on fourteen falling closes whose first candle has
    its high below its low, with [pandas_ta] missing, the last feature row
    has ema8 < ema21 < ema50 and rsi14 < 50 and a negative atr14; the label
    is short but stop and target are on the wrong sides of the entry. *)
Lemma heuristic_short_with_negative_atr :
  ∃ lst, last (compute_features Sample.sqrt8 None Sample.inverted_fall) = Some lst
    ∧ (ema8 lst < ema21 lst)%Q ∧ (ema21 lst < ema50 lst)%Q ∧ (rsi14 lst < 50)%Q
    ∧ (atr14 lst < 0)%Q
    ∧ s_label (heuristic_signal_from_df Sample.sqrt8 None Sample.inverted_fall) = "short"
    ∧ ¬ ((s_tp (heuristic_signal_from_df Sample.sqrt8 None Sample.inverted_fall)
           < s_entry (heuristic_signal_from_df Sample.sqrt8 None Sample.inverted_fall))%Q
         ∧ (s_entry (heuristic_signal_from_df Sample.sqrt8 None Sample.inverted_fall)
           < s_sl (heuristic_signal_from_df Sample.sqrt8 None Sample.inverted_fall))%Q).
Proof.
  eexists. split; [vm_compute; reflexivity |].
  repeat (split; [vm_compute; reflexivity |]).
  intros [H _]. vm_compute in H. discriminate.
Qed.

(** C7, amended.  Let the last feature row of a series be [lst] and let ATR
    be its atr14, replaced by max(2*std, 1e-8) when it is zero.  If
    ema8 > ema21 > ema50 and rsi14 > 50 the heuristic returns long with
    sl = entry - 1.2*ATR and tp = entry + 2.4*ATR; if ema8 < ema21 < ema50
    and rsi14 < 50 it returns short with sl = entry + 1.2*ATR and
    tp = entry - 2.4*ATR; otherwise it returns none with sl = tp = 0.
    Whenever atr14 is not negative, ATR is strictly positive, so
    sl < entry < tp for long and tp < entry < sl for short; with
    [pandas_ta] missing, atr14 is not negative as soon as the first candle
    has its low at or below its high. *)
Theorem heuristic_label_and_levels sqrt ta (df : list candle) (lst : feat_row) :
  last (compute_features sqrt ta df) = Some lst →
  let s := heuristic_signal_from_df sqrt ta df in
  let atr := atr_proxy sqrt df (atr14 lst) in
  ((ema8 lst > ema21 lst)%Q ∧ (ema21 lst > ema50 lst)%Q ∧ (rsi14 lst > 50)%Q →
     s_label s = "long"
     ∧ s_sl s = (s_entry s - (12 # 10) * atr)%Q
     ∧ s_tp s = (s_entry s + (24 # 10) * atr)%Q
     ∧ ((0 <= atr14 lst)%Q → (s_sl s < s_entry s)%Q ∧ (s_entry s < s_tp s)%Q))
  ∧ ((ema8 lst < ema21 lst)%Q ∧ (ema21 lst < ema50 lst)%Q ∧ (rsi14 lst < 50)%Q →
     s_label s = "short"
     ∧ s_sl s = (s_entry s + (12 # 10) * atr)%Q
     ∧ s_tp s = (s_entry s - (24 # 10) * atr)%Q
     ∧ ((0 <= atr14 lst)%Q → (s_tp s < s_entry s)%Q ∧ (s_entry s < s_sl s)%Q))
  ∧ (¬ ((ema8 lst > ema21 lst)%Q ∧ (ema21 lst > ema50 lst)%Q ∧ (rsi14 lst > 50)%Q) →
     ¬ ((ema8 lst < ema21 lst)%Q ∧ (ema21 lst < ema50 lst)%Q ∧ (rsi14 lst < 50)%Q) →
     s_label s = "none" ∧ s_sl s = 0%Q ∧ s_tp s = 0%Q)
  ∧ ((0 <= atr14 lst)%Q → (0 < atr)%Q)
  ∧ (ta = None → first_candle_upright df → (0 <= atr14 lst)%Q).
Proof.
  intros Hlast s atr.
  destruct (heuristic_signal_eq sqrt ta df lst Hlast) as (row & Hrow & Heq).
  subst s. rewrite Heq. clear Heq. simpl. fold atr.
  split; [| split; [| split; [| split]]].
  - intros (H1 & H2 & H3).
    rewrite (heuristic_label_long _ _ _ _ H1 H2 H3). simpl.
    do 3 (split; [done |]). intros Hatr.
    pose proof (atr_proxy_pos sqrt df (atr14 lst) Hatr) as Hpos. fold atr in Hpos.
    clearbody atr. cbn. split; lra.
  - intros (H1 & H2 & H3).
    rewrite (heuristic_label_short _ _ _ _ H1 H2 H3). simpl.
    do 3 (split; [done |]). intros Hatr.
    pose proof (atr_proxy_pos sqrt df (atr14 lst) Hatr) as Hpos. fold atr in Hpos.
    clearbody atr. cbn. split; lra.
  - intros Hl Hs. by rewrite (heuristic_label_none _ _ _ _ Hl Hs).
  - apply atr_proxy_pos.
  - intros -> Hfirst. by eapply last_atr_nonneg_without_ta.
Qed.

Lemma heuristic_label_and_levels_witness :
  s_label (heuristic_signal_from_df Sample.sqrt8 None Sample.zigzag_up) = "long"
  ∧ (s_sl (heuristic_signal_from_df Sample.sqrt8 None Sample.zigzag_up)
     < s_entry (heuristic_signal_from_df Sample.sqrt8 None Sample.zigzag_up))%Q
  ∧ (s_entry (heuristic_signal_from_df Sample.sqrt8 None Sample.zigzag_up)
     < s_tp (heuristic_signal_from_df Sample.sqrt8 None Sample.zigzag_up))%Q.
Proof.
  edestruct (heuristic_label_and_levels Sample.sqrt8 None Sample.zigzag_up)
    as (Hlong & _).
  { vm_compute. reflexivity. }
  destruct Hlong as (Hlab & _ & _ & Hord).
  { repeat split; vm_compute; reflexivity. }
  split; [exact Hlab |]. apply Hord. vm_compute. discriminate.
Defined.

(** ** Orchestrator *)

Lemma bind_ok {A B} (m : M A) (k : A → M B) w a w' :
  m w = (Ok a, w') → (m ≫= k) w = k a w'.
Proof. intros H. unfold mbind, M_bind. by rewrite H. Qed.


Lemma bind_inv {A B} (m : M A) (k : A → M B) w r w' :
  (m ≫= k) w = (r, w') →
  (∃ a w1, m w = (Ok a, w1) ∧ k a w1 = (r, w'))
  ∨ (∃ msg, m w = (Raise msg, w') ∧ r = Raise msg).
Proof.
  unfold mbind, M_bind. destruct (m w) as [[a | msg] w1]; intros H.
  - left. by exists a, w1.
  - right. exists msg. by injection H as <- <-.
Qed.

Lemma bind_inv_ok {A B} (m : M A) (k : A → M B) w b w' :
  (m ≫= k) w = (Ok b, w') → ∃ a w1, m w = (Ok a, w1) ∧ k a w1 = (Ok b, w').
Proof.
  intros H. apply bind_inv in H as [H | (msg & _ & H)]; [done | discriminate].
Qed.

(** The tags the source-selection chain can leave in [src]. *)
Lemma resolve_source_src env req symbol limit tf w df src w' :
  resolve_source env req symbol limit tf w = (Ok (Resolved df src), w') →
  known_source df src.
Proof.
  unfold resolve_source, known_source.
  destruct (req_candles req ≫= (λ d, d !! tf)) as [window |].
  - intros H. apply bind_inv_ok in H as (x & w1 & _ & H).
    injection H as <- <- <-. right. split; [by eexists | by left].
  - destruct (startswith (upper symbol) "BINANCE:").
    { intros H. apply bind_inv_ok in H as (x & w1 & _ & H).
      injection H as <- <- <-. right. split; [by eexists | by right; left]. }
    destruct (startswith (upper symbol) "OANDA:").
    { intros H. apply bind_inv_ok in H as (x & w1 & _ & H).
      injection H as <- <- <-. destruct x; [right | left]; [| done].
      split; [by eexists | by do 2 right; left]. }
    destruct (_ && _).
    { intros H. apply bind_inv_ok in H as (x & w1 & _ & H).
      injection H as <- <- <-. destruct x; [right | left]; [| done].
      split; [by eexists | by do 3 right; left]. }
    intros H. apply bind_inv_ok in H as (found & w1 & _ & H).
    destruct found as [path |]; [| discriminate].
    apply bind_inv_ok in H as (df1 & w2 & _ & H).
    apply bind_inv_ok in H as (df2 & w3 & _ & H).
    injection H as <- <- <-. right. split; [by eexists |].
    do 4 right. by exists path.
Qed.

Lemma known_source_not_model df src :
  known_source df src → src_or_heuristic src = src ∧ src ≠ "model".
Proof.
  intros [[_ ->] | [_ [-> | [-> | [-> | [-> | [path ->]]]]]]]; done.
Qed.

(** C6.  Whenever the frame resolved for a timeframe has fewer than 50 rows
    after cleaning, the Prediction for that timeframe carries a source other
    than "model", whether or not a model is loaded.  When the resolved frame
    is not empty, label, confidence, entry, sl and tp of the Prediction are
    those of the heuristic signal computed on the cleaned frame, its
    timeframe is the one asked for and its source is the source the frame
    came from; when the resolved frame is empty the Prediction is the
    zero-valued one with source "no-data". *)
Theorem short_series_uses_heuristic env req symbol limit tf w df src w' :
  resolve_source env req symbol limit tf w = (Ok (Resolved (Some df) src), w') →
  (length (clean_frame df) < 50)%nat →
  ∃ p, process_timeframe env req symbol limit tf w = (Ok p, w')
       ∧ p_source p ≠ "model"
       ∧ (df ≠ [] →
          let s := heuristic_signal_from_df (sqrt env) (ta env) (clean_frame df) in
          p_timeframe p = tf
          ∧ p_label p = s_label s
          ∧ p_confidence p = s_confidence s
          ∧ p_entry p = s_entry s
          ∧ p_sl p = s_sl s
          ∧ p_tp p = s_tp s
          ∧ p_source p = src)
       ∧ (df = [] →
          p_timeframe p = tf ∧ p_label p = "none" ∧ p_confidence p = 0%Q
          ∧ p_entry p = 0%Q ∧ p_sl p = 0%Q ∧ p_tp p = 0%Q
          ∧ p_source p = "no-data").
Proof.
  intros Hres Hlen.
  destruct (known_source_not_model _ _ (resolve_source_src _ _ _ _ _ _ _ _ _ Hres)) as [Hsrc Hne].
  unfold process_timeframe. rewrite (bind_ok _ _ _ _ _ Hres). unfold lift.
  destruct df as [| r df'].
  - exists (no_data tf). by repeat split.
  - unfold predict_frame.
    destruct (Nat.ltb_spec (length (clean_frame (r :: df'))) 50) as [_ | Hge]; [| lia].
    rewrite Hsrc. eexists. split; [done |]. split; [done |].
    split; [| done]. intros _. cbn. by repeat split.
Qed.

Lemma short_series_uses_heuristic_witness :
  let s := heuristic_signal_from_df Sample.sqrt8 None
             (Sample.client_candles (Sample.zigzag_closes 20)) in
  ∃ p, process_timeframe
         (Sample.env_with (Some Sample.three_class_model) (Some Sample.meta_known)
                          Sample.offline)
         (Sample.client_request (Sample.zigzag_closes 20)) "XAUUSD" 300 "1m"
         Sample.boot = (Ok p, Sample.boot)
       ∧ p_source p ≠ "model"
       ∧ p_timeframe p = "1m"
       ∧ p_label p = s_label s
       ∧ p_confidence p = s_confidence s
       ∧ p_entry p = s_entry s
       ∧ p_sl p = s_sl s
       ∧ p_tp p = s_tp s
       ∧ p_source p = "client-candles"
       ∧ s_label s = "long" ∧ s_entry s = 135%Q.
Proof.
  intros s.
  edestruct (short_series_uses_heuristic
               (Sample.env_with (Some Sample.three_class_model) (Some Sample.meta_known)
                                Sample.offline)
               (Sample.client_request (Sample.zigzag_closes 20)) "XAUUSD" 300 "1m"
               Sample.boot
               (raw_of <$> Sample.client_candles (Sample.zigzag_closes 20))
               "client-candles")
    as (p & Hp & Hsrc & Hfields & _).
  - vm_compute. reflexivity.
  - vm_compute. lia.
  - destruct Hfields as (Htf & Hlabel & Hconf & Hentry & Hsl & Htp & Hsource);
      [discriminate |].
    assert (Hclean : clean_frame (raw_of <$> Sample.client_candles (Sample.zigzag_closes 20))
                     = Sample.client_candles (Sample.zigzag_closes 20))
      by (vm_compute; reflexivity).
    rewrite Hclean in Hlabel, Hconf, Hentry, Hsl, Htp.
    exists p. repeat (split; [assumption |]).
    split; vm_compute; reflexivity.
Defined.

(** ** Model strategy *)

(** A failure of [predict_proba] is answered with the heuristic signal. *)
Lemma model_predict_inference_failure sqrt ta model meta df lst cols X msg :
  last (compute_features sqrt ta df) = Some lst →
  meta_features meta = Some cols → cols ≠ [] →
  feature_vector lst cols = Ok X →
  predict_proba model X = Raise msg →
  model_predict_from_df sqrt ta (Some model) (Some meta) df
    = Ok (heuristic_signal_from_df sqrt ta df).
Proof.
  intros Hlast Hcols Hne HX Hraise. unfold model_predict_from_df.
  rewrite Hlast, Hcols. destruct cols as [| c cols]; [done |].
  cbn [default from_option id]. rewrite HX. cbn [mbind result_bind]. by rewrite Hraise.
Qed.

Lemma feature_vector_unknown lst cols name :
  name ∈ cols → feature_cell lst name = None →
  ∃ msg, feature_vector lst cols = Raise msg.
Proof.
  intros Hin Hcell. unfold feature_vector.
  induction cols as [| c cols IH]; [by apply elem_of_nil in Hin |].
  cbn [mapM]. apply elem_of_cons in Hin as [<- | Hin].
  - rewrite Hcell. by eexists.
  - destruct (feature_cell lst c) as [[] |]; cbn [mbind result_bind];
      try (destruct (IH Hin) as [msg ->]); by eexists.
Qed.

(** The general form of the C5 evaluation below: a feature name of the
    metadata that the feature frame lacks makes [model_predict_from_df]
    raise. *)
Lemma model_predict_unknown_feature sqrt ta model meta df lst cols name :
  last (compute_features sqrt ta df) = Some lst →
  meta_features meta = Some cols →
  name ∈ cols → feature_cell lst name = None →
  ∃ msg, model_predict_from_df sqrt ta (Some model) (Some meta) df = Raise msg.
Proof.
  intros Hlast Hcols Hin Hcell. unfold model_predict_from_df.
  rewrite Hlast, Hcols. cbn [default from_option id].
  destruct cols as [| c cols]; [by apply elem_of_nil in Hin |].
  destruct (feature_vector_unknown lst (c :: cols) name Hin Hcell) as [msg ->].
  by exists msg.
Qed.

(** C5, evaluated.  With a model loaded whose metadata lists a column the
    feature frame does not have, assembling the feature vector raises and
    [model_predict_from_df] lets the exception out, although the heuristic
    strategy has a signal for the same series. *)
Theorem model_predict_unknown_feature_raises :
  model_predict_from_df Sample.sqrt8 None (Some Sample.three_class_model)
                        (Some Sample.meta_macd) Sample.zigzag_up
    = Raise "['macd'] not in index"
  ∧ s_label (heuristic_signal_from_df Sample.sqrt8 None Sample.zigzag_up) = "long".
Proof. split; vm_compute; reflexivity. Qed.

(** C10, as stated, fails: a model is loaded and the cleaned series has 50
    rows, yet the Prediction is tagged with the error, not with "model". *)
Lemma model_loaded_yet_error_tag :
  is_Some (MODEL (Sample.env_with (Some Sample.three_class_model)
                                  (Some Sample.meta_macd) Sample.offline))
  ∧ (∃ df, resolve_source
             (Sample.env_with (Some Sample.three_class_model)
                              (Some Sample.meta_macd) Sample.offline)
             (Sample.client_request (Sample.zigzag_closes 50)) "XAUUSD" 300 "1m"
             Sample.boot = (Ok (Resolved (Some df) "client-candles"), Sample.boot)
           ∧ length (clean_frame df) = 50%nat)
  ∧ batch_predict
      (Sample.env_with (Some Sample.three_class_model) (Some Sample.meta_macd)
                       Sample.offline)
      (Sample.client_request (Sample.zigzag_closes 50)) Sample.boot
    = (Ok [error_prediction "1m" "['macd'] not in index"], Sample.boot)
  ∧ p_source (error_prediction "1m" "['macd'] not in index") ≠ "model".
Proof.
  split; [by eexists |].
  split; [eexists; split; vm_compute; reflexivity |].
  split; [vm_compute; reflexivity | done].
Qed.

(** C10, amended.  While a model is loaded, a timeframe whose cleaned series
    has at least 50 rows yields a Prediction whose source is exactly "model"
    whenever [model_predict_from_df] returns, also when [predict_proba]
    raised and the heuristic strategy produced the signal; when
    [model_predict_from_df] raises, the timeframe yields the error-tagged
    Prediction instead. *)
Theorem long_series_with_model env req symbol limit tf w df src w' model :
  MODEL env = Some model →
  resolve_source env req symbol limit tf w = (Ok (Resolved (Some df) src), w') →
  (50 ≤ length (clean_frame df))%nat →
  let predict :=
    model_predict_from_df (sqrt env) (ta env) (MODEL env) (META env) (clean_frame df) in
  (∀ sig, predict = Ok sig →
     process_timeframe env req symbol limit tf w = (Ok (tag tf sig "model"), w')
     ∧ p_source (tag tf sig "model") = "model")
  ∧ (∀ meta lst cols X msg,
       META env = Some meta →
       last (compute_features (sqrt env) (ta env) (clean_frame df)) = Some lst →
       meta_features meta = Some cols → cols ≠ [] →
       feature_vector lst cols = Ok X →
       predict_proba model X = Raise msg →
       predict = Ok (heuristic_signal_from_df (sqrt env) (ta env) (clean_frame df)))
  ∧ (∀ msg, predict = Raise msg →
       try_except (process_timeframe env req symbol limit tf)
                  (λ m, mret (error_prediction tf m)) w
         = (Ok (error_prediction tf msg), w')).
Proof.
  intros Hmodel Hres Hlen predict.
  assert (Hbody : process_timeframe env req symbol limit tf w
                  = ((λ sig, tag tf sig "model") <$> predict, w')).
  { unfold process_timeframe. rewrite (bind_ok _ _ _ _ _ Hres). unfold lift.
    destruct df as [| r df']; [simpl in Hlen; lia |].
    unfold predict_frame.
    destruct (Nat.ltb_spec (length (clean_frame (r :: df'))) 50) as [Hlt | _]; [lia |].
    subst predict. rewrite Hmodel.
    by destruct (model_predict_from_df _ _ _ _ _). }
  split; [| split].
  - intros sig Hsig. by rewrite Hbody, Hsig.
  - intros meta lst cols X msg Hmeta Hlast Hcols Hne HX Hraise.
    subst predict. rewrite Hmodel, Hmeta.
    by eapply model_predict_inference_failure.
  - intros msg Hraise. unfold try_except. by rewrite Hbody, Hraise.
Qed.

Lemma long_series_with_model_witness :
  ∃ p, process_timeframe
         (Sample.env_with (Some Sample.failing_model) (Some Sample.meta_known)
                          Sample.offline)
         (Sample.client_request (Sample.zigzag_closes 50)) "XAUUSD" 300 "1m"
         Sample.boot = (Ok p, Sample.boot)
       ∧ p_source p = "model".
Proof.
  edestruct (long_series_with_model
               (Sample.env_with (Some Sample.failing_model) (Some Sample.meta_known)
                                Sample.offline)
               (Sample.client_request (Sample.zigzag_closes 50)) "XAUUSD" 300 "1m"
               Sample.boot) as (Hok & Hfall & _).
  - reflexivity.
  - vm_compute. reflexivity.
  - vm_compute. lia.
  - eexists. eapply Hok.
    eapply (Hfall Sample.meta_known).
    + reflexivity.
    + vm_compute. reflexivity.
    + reflexivity.
    + done.
    + vm_compute. reflexivity.
    + reflexivity.
Defined.

(** ** The batch loop *)

Lemma str_in_spec x l : str_in x l = true ↔ x ∈ l.
Proof.
  unfold str_in. induction l as [| y l IH]; simpl.
  - split; [done | by intros ?%elem_of_nil].
  - rewrite orb_true_iff, IH, elem_of_cons, String.eqb_eq. done.
Qed.

Lemma valid_timeframes_check tfs :
  valid_timeframes tfs →
  existsb (λ tf, negb (str_in tf SUPPORTED_TFS)) tfs = false.
Proof.
  induction 1 as [| tf tfs Htf _ IH]; [done |]. cbn [existsb].
  by rewrite (proj2 (str_in_spec tf SUPPORTED_TFS) Htf), IH.
Qed.

Lemma predict_frame_timeframe env tf df src p :
  predict_frame env tf df src = Ok p → p_timeframe p = tf.
Proof.
  unfold predict_frame. destruct df as [[| r df] |]; try by intros [= <-].
  destruct (_ <? _)%nat; [by intros [= <-] |].
  destruct (MODEL env).
  - destruct (model_predict_from_df _ _ _ _ _); [by intros [= <-] | done].
  - by intros [= <-].
Qed.

Lemma process_timeframe_timeframe env req symbol limit tf w p w' :
  process_timeframe env req symbol limit tf w = (Ok p, w') → p_timeframe p = tf.
Proof.
  unfold process_timeframe. intros H.
  apply bind_inv_ok in H as (r & w1 & _ & H). destruct r as [| df src].
  - by injection H as <- _.
  - unfold lift in H. injection H as H _. by eapply predict_frame_timeframe.
Qed.

Lemma predict_loop_served env req symbol limit tfs w :
  ∃ preds w', predict_loop env req symbol limit tfs w = (Ok preds, w')
              ∧ served env req symbol limit tfs w preds w'.
Proof.
  revert w. induction tfs as [| tf tfs IH]; intros w.
  - exists [], w. split; [done | constructor].
  - cbn [predict_loop]. unfold mbind at 1, M_bind at 1, try_except.
    destruct (process_timeframe env req symbol limit tf w) as [[p | msg] w1] eqn:E.
    + destruct (IH w1) as (ps & w2 & Hloop & Hserved).
      exists (p :: ps), w2. split; [| by econstructor].
      by rewrite (bind_ok _ _ _ _ _ Hloop).
    + destruct (IH w1) as (ps & w2 & Hloop & Hserved).
      exists (error_prediction tf msg :: ps), w2. split; [| by eapply served_error].
      unfold mret at 1, M_ret at 1. by rewrite (bind_ok _ _ _ _ _ Hloop).
Qed.

Lemma served_timeframes env req symbol limit tfs w preds w' :
  served env req symbol limit tfs w preds w' → p_timeframe <$> preds = tfs.
Proof.
  induction 1 as [| tf tfs w p w1 ps w2 Hp _ IH | tf tfs w msg w1 ps w2 _ _ IH];
    [done | |]; cbn [fmap list_fmap]; f_equal; try done.
  by eapply process_timeframe_timeframe.
Qed.

(** C1, as stated, fails: a request whose timeframe list is empty, which
    names no unsupported timeframe, is answered with one Prediction, for
    "1m". *)
Lemma empty_timeframes_default_to_1m :
  valid_timeframes (req_timeframes Sample.bare_request)
  ∧ batch_predict (Sample.env_with None None Sample.offline) Sample.bare_request
                  Sample.boot
    = (Ok [no_data "1m"], MkWorld ∅ 4)
  ∧ p_timeframe <$> [no_data "1m"] ≠ req_timeframes Sample.bare_request.
Proof.
  split; [constructor |]. split; [vm_compute; reflexivity | done].
Qed.

(** C1, amended.  For every batch request whose effective timeframe list
    (the requested list, or ["1m"] when that list is empty) holds supported
    timeframes only, the response is one Prediction per timeframe of the
    effective list, in that order.  An exception raised while one timeframe
    is processed is turned into a Prediction with label none, confidence 0,
    entry, sl and tp 0 and a source that starts with "error:", and the
    timeframes after it are processed all the same. *)
Theorem batch_predict_serves_each_timeframe env (req : BatchRequest) (w : World) :
  valid_timeframes (effective_timeframes req) →
  ∃ preds w',
    batch_predict env req w = (Ok preds, w')
    ∧ p_timeframe <$> preds = effective_timeframes req
    ∧ served env req (strip (req_symbol req)) (effective_limit req)
             (effective_timeframes req) w preds w'
    ∧ ∀ tf msg,
        error_prediction tf msg
          = MkPrediction tf "none" 0 0 0 0 (p_source (error_prediction tf msg))
        ∧ startswith (p_source (error_prediction tf msg)) "error:" = true.
Proof.
  intros Hvalid. unfold batch_predict.
  rewrite (valid_timeframes_check _ Hvalid).
  destruct (predict_loop_served env req (strip (req_symbol req)) (effective_limit req)
              (effective_timeframes req) w) as (preds & w' & Hloop & Hserved).
  exists preds, w'. split; [done |]. split; [by eapply served_timeframes |].
  split; [done |]. intros tf msg. split; [reflexivity |].
  unfold error_prediction, startswith. cbn [p_source].
  by destruct (str_take 120 msg).
Qed.

Lemma batch_predict_serves_each_timeframe_witness :
  ∃ preds w',
    batch_predict (Sample.env_with None None Sample.offline) Sample.binance_request
                  Sample.boot = (Ok preds, w')
    ∧ p_timeframe <$> preds = ["1m"; "5m"].
Proof.
  destruct (batch_predict_serves_each_timeframe
              (Sample.env_with None None Sample.offline) Sample.binance_request
              Sample.boot) as (preds & w' & Hrun & Htfs & _).
  - repeat constructor.
  - by exists preds, w'.
Defined.

(** ** Source adapters *)

Lemma cache_getM_run env key w :
  cache_getM env key w
  = (Ok (cache_get (clock env (tick w)) key (_CACHE w)).1,
     MkWorld (cache_get (clock env (tick w)) key (_CACHE w)).2 (S (tick w))).
Proof. unfold cache_getM. by destruct (cache_get _ _ _). Qed.



Ltac run_bind := unfold mbind at 1, M_bind at 1.
















(** * Further properties of the code *)

(** ** TTL cache: soundness, framing, overwriting *)

(** X1.  [cache_get] never serves a stale entry: when it returns a payload,
    the cache holds that payload under the key with an age of at most 15
    seconds, and the cache is left as it was. *)
Theorem cache_get_sound {A} (now : Z) (key : string) (c c' : gmap string (Z * A)) (v : A) :
  cache_get now key c = (Some v, c') →
  c' = c ∧ ∃ ts, c !! key = Some (ts, v) ∧ now - ts ≤ timedelta_seconds CACHE_TTL_SECONDS.
Proof.
  unfold cache_get. destruct (c !! key) as [[ts p] |] eqn:Hk; [| done].
  destruct (Z.gtb_spec (now - ts) (timedelta_seconds CACHE_TTL_SECONDS)); [done |].
  intros [= <- <-]. split; [done |]. by exists ts.
Qed.

Lemma cache_get_sound_witness :
  ∃ ts, (<["k" := (5, true)]> (∅ : gmap string (Z * bool))) !! "k" = Some (ts, true)
        ∧ 7 - ts ≤ timedelta_seconds CACHE_TTL_SECONDS.
Proof.
  apply (cache_get_sound 7 "k" (<["k" := (5, true)]> ∅) (<["k" := (5, true)]> ∅) true).
  vm_compute. reflexivity.
Defined.

(** X2.  [cache_get] only ever removes: it leaves every other key as it
    was, adds nothing, and after a get that returned absent the key is not
    in the cache any more. *)
Theorem cache_get_only_evicts {A} (now : Z) (key : string) (c : gmap string (Z * A)) :
  (∀ k, k ≠ key → (cache_get now key c).2 !! k = c !! k)
  ∧ (cache_get now key c).2 ⊆ c
  ∧ ((cache_get now key c).1 = None → (cache_get now key c).2 !! key = None).
Proof.
  unfold cache_get. destruct (c !! key) as [[ts p] |] eqn:Hk; [| done].
  destruct (now - ts >? timedelta_seconds CACHE_TTL_SECONDS); cbn [fst snd].
  - split; [intros k Hne; by apply lookup_delete_ne |].
    split; [apply delete_subseteq | intros _; apply lookup_delete_eq].
  - done.
Qed.

(** X3.  Entries under different keys do not interfere: a get of one key
    and a set of another commute.  A second set under the same key replaces
    the first, payload and fetch time. *)
Theorem cache_set_frames_and_overwrites {A} (key k : string) (v v1 : A)
    (T T1 t : Z) (c : gmap string (Z * A)) :
  (k ≠ key →
   cache_get t k (cache_set T key v c)
   = ((cache_get t k c).1, cache_set T key v (cache_get t k c).2))
  ∧ cache_set T key v (cache_set T1 key v1 c) = cache_set T key v c.
Proof.
  split.
  - intros Hne. unfold cache_get, cache_set.
    rewrite lookup_insert_ne by done.
    destruct (c !! k) as [[ts p] |]; [| done].
    destruct (t - ts >? _); [| done]. cbn [fst snd].
    by rewrite delete_insert_ne by done.
  - unfold cache_set. apply insert_insert_eq.
Qed.

Lemma cache_set_frames_and_overwrites_witness :
  cache_get 20000000 "a" (cache_set 19000000 "b" 2%nat (<["a" := (0, 1%nat)]> ∅))
  = ((cache_get 20000000 "a" (<["a" := (0, 1%nat)]> ∅)).1,
     cache_set 19000000 "b" 2%nat (cache_get 20000000 "a" (<["a" := (0, 1%nat)]> ∅)).2).
Proof.
  apply (cache_set_frames_and_overwrites "b" "a" 2%nat 2%nat 19000000 0 20000000).
  discriminate.
Defined.

(** ** Client windows: when normalisation fails, what it keeps *)

Lemma result_bind_ok {A B} (r : result A) (k : A → result B) b :
  r ≫= k = Ok b → ∃ a, r = Ok a ∧ k a = Ok b.
Proof. destruct r as [a | msg]; [by exists a | done]. Qed.

(** X4.  [candles_to_df] returns a frame exactly when [pd.to_datetime]
    accepts the list of timestamps and the open, high, low, close and (if
    given) volume arrays are as long as the timestamp array; otherwise it
    raises, it never truncates to the shortest array. *)
Theorem candles_to_df_ok_iff td (obj : CandleWindow) :
  (∃ df, candles_to_df td obj = Ok df) ↔
  is_Some (td (w_timestamp obj))
  ∧ length (w_open obj) = length (w_timestamp obj)
  ∧ length (w_high obj) = length (w_timestamp obj)
  ∧ length (w_low obj) = length (w_timestamp obj)
  ∧ length (w_close obj) = length (w_timestamp obj)
  ∧ (∀ vol, w_volume obj = Some vol → length vol = length (w_timestamp obj)).
Proof.
  unfold candles_to_df. split.
  - intros [df H].
    destruct (td (w_timestamp obj)) as [read |]; [| done].
    case_bool_decide as Hlen; [| done]. rewrite length_fmap in Hlen.
    destruct Hlen as (Ho & Hh & Hl & Hc & Hv).
    split; [by eexists |]. repeat (split; [done |]).
    intros vol Hvol. by rewrite Hvol in Hv.
  - intros ([read Hread] & Ho & Hh & Hl & Hc & Hv). rewrite Hread.
    rewrite bool_decide_eq_true_2; [by eexists |].
    rewrite length_fmap. repeat (split; [done |]).
    destruct (w_volume obj) as [vol |]; cbn [default from_option id];
      [by apply Hv | apply length_replicate].
Qed.

Lemma omap_length_le {A B} (f : A → option B) l : (length (omap f l) ≤ length l)%nat.
Proof.
  induction l as [| x l IH]; [done |]. cbn [omap list_omap].
  destruct (f x); cbn [length]; lia.
Qed.

Lemma zip_rows_length ts o h l c v : (length (zip_rows ts o h l c v) ≤ length ts)%nat.
Proof.
  revert o h l c v. induction ts as [| t ts IH]; intros [| ? o] [| ? h] [| ? l] [| ? c] [| ? v];
    cbn [zip_rows length]; try lia.
  specialize (IH o h l c v). lia.
Qed.

Lemma zip_rows_no_volume ts o h l c n :
  Forall (λ r, r_volume r = None) (zip_rows ts o h l c (replicate n None)).
Proof.
  revert o h l c n.
  induction ts as [| t ts IH]; intros [| ? o] [| ? h] [| ? l] [| ? c] [| n];
    cbn [zip_rows replicate]; try constructor; [done | apply IH].
Qed.

(** X5.  The frame [candles_to_df] returns has at most one row per
    timestamp of the window; each of its rows is a window row whose four
    prices are defined, prices unchanged; and when the window carries no
    volume array every row has volume 0. *)
Theorem candles_to_df_rows td (obj : CandleWindow) (df : list candle) :
  candles_to_df td obj = Ok df →
  (length df ≤ length (w_timestamp obj))%nat
  ∧ (∀ r, r ∈ df →
       ∃ read raw, td (w_timestamp obj) = Some read
                 ∧ raw ∈ window_rows (read <$> w_timestamp obj) obj
                 ∧ r_timestamp raw = timestamp r
                 ∧ r_open raw = Some (open r) ∧ r_high raw = Some (high r)
                 ∧ r_low raw = Some (low r) ∧ r_close raw = Some (close r))
  ∧ (w_volume obj = None → Forall (λ r, volume r = 0%Q) df).
Proof.
  intros H. apply candles_to_df_inv in H as (read & Hts & ->).
  set (ts := read <$> w_timestamp obj).
  assert (Hrow : ∀ r, r ∈ sort_values (clean_frame (window_rows ts obj)) →
                      ∃ raw, raw ∈ window_rows ts obj ∧ clean_row raw = Some r).
  { intros r Hr. rewrite sort_values_perm in Hr.
    by apply list_elem_of_omap in Hr. }
  split; [| split].
  - rewrite sort_values_perm. unfold clean_frame.
    etrans; [apply omap_length_le |]. etrans; [apply zip_rows_length |].
    subst ts. by rewrite length_fmap.
  - intros r Hr. destruct (Hrow r Hr) as (raw & Hraw & Hclean).
    exists read, raw. split; [done |]. split; [done |].
    unfold clean_row in Hclean.
    destruct (r_open raw), (r_high raw), (r_low raw), (r_close raw); try done.
    by injection Hclean as <-.
  - intros Hvol. apply Forall_forall. intros r Hr.
    destruct (Hrow r Hr) as (raw & Hraw & Hclean).
    unfold window_rows in Hraw. rewrite Hvol in Hraw. cbn [default from_option id] in Hraw.
    pose proof (zip_rows_no_volume ts (w_open obj) (w_high obj) (w_low obj)
                  (w_close obj) (length ts)) as Hnone.
    rewrite Forall_forall in Hnone. specialize (Hnone raw Hraw).
    unfold clean_row in Hclean. rewrite Hnone in Hclean.
    destruct (r_open raw), (r_high raw), (r_low raw), (r_close raw); try done.
    by injection Hclean as <-.
Qed.

Lemma candles_to_df_rows_witness :
  (length [Candle Sample.midnight 1 2 0 1 0;
           Candle (Sample.midnight + minute_ns) 3 4 2 3 0;
           Candle (Sample.midnight + minute_ns) 3 4 2 3 0]
   ≤ length (w_timestamp Sample.dup_window))%nat.
Proof.
  apply (candles_to_df_rows Sample.parse_iso_list Sample.dup_window).
  vm_compute. reflexivity.
Defined.

(** ** Aggregation: grid, idempotence, price consistency *)

Lemma resample_ohlcv_strict w df :
  0 < w → StronglySorted strictly_later (resample_ohlcv w df).
Proof.
  intros Hw. unfold resample_ohlcv. apply StronglySorted_filter.
  destruct (head (sort_values_raw df)) as [a |] eqn:Ha;
    [| unfold resample; rewrite Ha; constructor].
  destruct (last (sort_values_raw df)) as [b |] eqn:Hb;
    [| unfold resample; rewrite Ha, Hb; constructor].
  rewrite (resample_bins w df a b) by done.
  rewrite <- list_fmap_compose.
  eapply StronglySorted_fmap; [| apply StronglySorted_seqZ].
  intros x y Hxy. unfold strictly_later. simpl. nia.
Qed.

Lemma resample_ohlcv_on_grid w df r :
  0 < w → r ∈ resample_ohlcv w df → bin_start w (r_timestamp r) = r_timestamp r.
Proof.
  intros Hw Hr. destruct (resample_ohlcv_row w df r Hr) as (Ho & _).
  destruct Ho as (pre & o & post & Hcol & _ & _).
  assert (Hin : Some o ∈ r_open <$> bucket w (r_timestamp r) df).
  { rewrite Hcol. apply elem_of_app. right. left. }
  apply list_elem_of_fmap in Hin as (x & _ & Hx).
  apply elem_of_bucket in Hx as (_ & Hk & _); [| done].
  apply bin_start_spec; [done |]. split; [done | lia].
Qed.

Lemma clean_frame_complete df :
  Forall (λ r, row_complete r = true) df → length (clean_frame df) = length df.
Proof.
  induction 1 as [| r df Hr _ IH]; [done |].
  unfold clean_frame in *. cbn [omap list_omap]. unfold row_complete in Hr.
  rewrite !andb_true_iff, !bool_decide_eq_true in Hr.
  destruct Hr as [[[[[o Ho] [h Hh]] [l Hl]] [c Hc]] _].
  unfold clean_row at 1. rewrite Ho, Hh, Hl, Hc. cbn [length]. by f_equal.
Qed.

(** X6.  Every row an aggregation to 5m, 15m, 1h or 4h returns sits on the
    grid of the target interval (its timestamp is the left edge of its own
    bin) and has all five cells defined, so the cleaning step of
    [batch_predict] drops none of them. *)
Theorem aggregate_rows_on_grid (datetime_index : bool) (df out : list raw_candle)
    (tf : string) (w : Z) :
  offset_map tf = Some w →
  aggregate_from_1m datetime_index df tf = Ok out →
  Forall (λ r, bin_start w (r_timestamp r) = r_timestamp r
               ∧ row_complete r = true) out
  ∧ length (clean_frame out) = length out.
Proof.
  intros Hw Hout. pose proof (offset_map_pos tf w Hw) as Hpos.
  unfold aggregate_from_1m in Hout.
  rewrite (offset_map_not_1m tf w Hw), Hw in Hout.
  destruct datetime_index; [| done]. injection Hout as <-.
  assert (Hall : Forall (λ r, bin_start w (r_timestamp r) = r_timestamp r
                              ∧ row_complete r = true) (resample_ohlcv w df)).
  { apply Forall_forall. intros r Hr. split; [by apply (resample_ohlcv_on_grid w df) |].
    by apply resample_ohlcv_elem in Hr as [? _]. }
  split; [done |]. apply clean_frame_complete.
  eapply Forall_impl; [exact Hall |]. by intros r [_ ?].
Qed.

Lemma aggregate_rows_on_grid_witness :
  length (clean_frame [RawCandle Sample.midnight (Some 2%Q) (Some 6%Q) (Some 1%Q)
                                 (Some 4%Q) (Some 2%Q)])
  = length [RawCandle Sample.midnight (Some 2%Q) (Some 6%Q) (Some 1%Q)
                      (Some 4%Q) (Some 2%Q)].
Proof.
  apply (aggregate_rows_on_grid true Sample.holed_frame
           [RawCandle Sample.midnight (Some 2%Q) (Some 6%Q) (Some 1%Q)
                      (Some 4%Q) (Some 2%Q)] "5m" (5 * minute_ns)).
  - reflexivity.
  - vm_compute. reflexivity.
Defined.

Lemma strictly_later_distinct l x y :
  StronglySorted strictly_later l → x ∈ l → y ∈ l →
  r_timestamp x = r_timestamp y → x = y.
Proof.
  induction 1 as [| a l Hl IH Ha]; [by intros ?%elem_of_nil |].
  rewrite Forall_forall in Ha. unfold strictly_later in Ha.
  intros Hx Hy Heq.
  apply elem_of_cons in Hx as [-> | Hx]; apply elem_of_cons in Hy as [-> | Hy];
    [done | | | by apply IH].
  - specialize (Ha y Hy). lia.
  - specialize (Ha x Hx). lia.
Qed.

Lemma strictly_later_NoDup l : StronglySorted strictly_later l → NoDup l.
Proof.
  induction 1 as [| a l Hl IH Ha]; [constructor |].
  apply NoDup_cons. split; [| done].
  intros Hin. rewrite Forall_forall in Ha. specialize (Ha a Hin).
  unfold strictly_later in Ha. lia.
Qed.

Lemma NoDup_only {A} (l : list A) x :
  NoDup l → (∀ y, y ∈ l ↔ y = x) → l = [x].
Proof.
  intros Hnd Hiff. destruct l as [| a l].
  - exfalso. eapply elem_of_nil. by apply Hiff.
  - assert (a = x) as -> by (apply Hiff; left).
    f_equal. destruct l as [| b l]; [done |].
    apply NoDup_cons in Hnd as [Hnot _].
    assert (b = x) as -> by (apply Hiff; right; left).
    exfalso. apply Hnot. left.
Qed.

Lemma bucket_of_grid_row w l x :
  0 < w → StronglySorted strictly_later l →
  Forall (λ r, bin_start w (r_timestamp r) = r_timestamp r) l →
  x ∈ l → bucket w (r_timestamp x) l = [x].
Proof.
  intros Hw Hs Hgrid Hx. rewrite Forall_forall in Hgrid.
  apply NoDup_only.
  - unfold bucket. apply NoDup_filter. unfold sort_values_raw.
    rewrite stable_sort_Permutation. by apply strictly_later_NoDup.
  - intros y. unfold bucket, sort_values_raw.
    rewrite list_elem_of_filter, stable_sort_Permutation. split.
    + intros [Hbin Hy]. rewrite (Hgrid y Hy) in Hbin.
      by apply (strictly_later_distinct l).
    + intros ->. split; [by apply Hgrid | done].
Qed.

Lemma Qplus_0_r_eq (v : Q) : (v + 0)%Q = v.
Proof.
  destruct v as [n d]. unfold Qplus. cbn [Qnum Qden].
  by rewrite Z.mul_1_r, Z.mul_0_l, Z.add_0_r, Pos.mul_1_r.
Qed.

Lemma ohlcv_reduce_single x :
  row_complete x = true → ohlcv_reduce (r_timestamp x, [x]) = x.
Proof.
  unfold row_complete. rewrite !andb_true_iff, !bool_decide_eq_true.
  intros [[[[[o Ho] [h Hh]] [l Hl]] [c Hc]] [v Hv]].
  destruct x as [t xo xh xl xc xv]. cbn in *. subst.
  unfold ohlcv_reduce, agg_first, agg_max, agg_min, agg_last, agg_sum. cbn.
  by rewrite Qplus_0_r_eq.
Qed.

Lemma resample_ohlcv_fixpoint w l :
  0 < w → StronglySorted strictly_later l →
  Forall (λ r, bin_start w (r_timestamp r) = r_timestamp r
               ∧ row_complete r = true) l →
  resample_ohlcv w l = l.
Proof.
  intros Hw Hs Hall.
  assert (Hgrid : Forall (λ r, bin_start w (r_timestamp r) = r_timestamp r) l)
    by (eapply Forall_impl; [exact Hall |]; by intros r [? _]).
  rewrite Forall_forall in Hall.
  apply (StronglySorted_unique_strong strictly_later).
  - unfold strictly_later. intros; lia.
  - by apply resample_ohlcv_strict.
  - done.
  - apply NoDup_Permutation.
    + by apply strictly_later_NoDup, resample_ohlcv_strict.
    + by apply strictly_later_NoDup.
    + intros r. split.
      * intros Hr. destruct (resample_ohlcv_row w l r Hr) as (Ho & _).
        destruct (resample_ohlcv_elem w l r Hr) as [_ Heq].
        destruct Ho as (pre & o & post & Hcol & _ & _).
        assert (Hin : Some o ∈ r_open <$> bucket w (r_timestamp r) l).
        { rewrite Hcol. apply elem_of_app. right. left. }
        apply list_elem_of_fmap in Hin as (x & _ & Hx).
        pose proof Hx as Hx'.
        apply elem_of_bucket in Hx' as (Hxl & _ & _); [| done].
        unfold bucket in Hx. apply list_elem_of_filter in Hx as [Hbin _].
        rewrite Forall_forall in Hgrid. rewrite (Hgrid x Hxl) in Hbin.
        rewrite <- Hbin in Heq.
        rewrite (bucket_of_grid_row w l x Hw Hs) in Heq;
          [| by apply Forall_forall | done].
        rewrite ohlcv_reduce_single in Heq by by apply Hall. by subst.
      * intros Hr. destruct (Hall r Hr) as [Hbin Hc].
        pose proof (resample_ohlcv_complete w l r Hw Hr) as Hin.
        cbn zeta in Hin. rewrite Hbin in Hin.
        rewrite (bucket_of_grid_row w l r Hw Hs Hgrid Hr) in Hin.
        rewrite (ohlcv_reduce_single r Hc) in Hin. by apply Hin.
Qed.

(** X7.  Aggregation is idempotent: aggregating the result of an
    aggregation to the same target timeframe returns it unchanged. *)
Theorem aggregate_idempotent (datetime_index : bool) (df out : list raw_candle)
    (tf : string) :
  aggregate_from_1m datetime_index df tf = Ok out →
  aggregate_from_1m datetime_index out tf = Ok out.
Proof.
  intros Hout. unfold aggregate_from_1m in *.
  destruct (String.eqb tf "1m"); [done |].
  destruct (offset_map tf) as [w |] eqn:Hw; [| done].
  pose proof (offset_map_pos tf w Hw) as Hpos.
  destruct datetime_index; [| done].
  injection Hout as <-. f_equal.
  apply resample_ohlcv_fixpoint; [done | by apply resample_ohlcv_strict |].
  apply Forall_forall. intros r Hr. split; [by apply (resample_ohlcv_on_grid w df) |].
  by apply resample_ohlcv_elem in Hr as [? _].
Qed.

Lemma aggregate_idempotent_witness :
  aggregate_from_1m true
    [RawCandle Sample.midnight (Some 2%Q) (Some 6%Q) (Some 1%Q) (Some 4%Q) (Some 2%Q)]
    "5m"
  = Ok [RawCandle Sample.midnight (Some 2%Q) (Some 6%Q) (Some 1%Q) (Some 4%Q) (Some 2%Q)].
Proof.
  apply (aggregate_idempotent true Sample.holed_frame).
  vm_compute. reflexivity.
Defined.

(** X8.  Aggregation keeps prices consistent: if every input row has all
    cells defined with low ≤ open, close ≤ high, then so has every output
    row. *)
Theorem aggregate_keeps_prices_consistent (datetime_index : bool)
    (df out : list raw_candle) (tf : string) (w : Z) :
  offset_map tf = Some w →
  aggregate_from_1m datetime_index df tf = Ok out →
  Forall (λ x, row_complete x = true ∧ raw_upright x) df →
  Forall raw_upright out.
Proof.
  intros Hw Hout Hdf. pose proof (offset_map_pos tf w Hw) as Hpos.
  unfold aggregate_from_1m in Hout.
  rewrite (offset_map_not_1m tf w Hw), Hw in Hout.
  destruct datetime_index; [| done]. injection Hout as <-.
  rewrite Forall_forall in Hdf.
  apply Forall_forall. intros r Hr.
  destruct (resample_ohlcv_row w df r Hr) as (Ho & Hh & Hl & Hc & _).
  set (rows := bucket w (r_timestamp r) df) in *.
  assert (Hrows : ∀ x, x ∈ rows →
            ∃ xo xh xl xc, r_open x = Some xo ∧ r_high x = Some xh
              ∧ r_low x = Some xl ∧ r_close x = Some xc
              ∧ (xl <= xo)%Q ∧ (xo <= xh)%Q ∧ (xl <= xc)%Q ∧ (xc <= xh)%Q
              ∧ Some xh ∈ r_high <$> rows ∧ Some xl ∈ r_low <$> rows).
  { intros x Hx. pose proof Hx as Hx'.
    apply elem_of_bucket in Hx' as (Hxdf & _ & _); [| done].
    destruct (Hdf x Hxdf) as [Hcomp Hup].
    unfold row_complete in Hcomp.
    rewrite !andb_true_iff, !bool_decide_eq_true in Hcomp.
    destruct Hcomp as [[[[[xo Hxo] [xh Hxh]] [xl Hxl]] [xc Hxc]] _].
    destruct (Hup xo xh xl xc Hxo Hxh Hxl Hxc) as (? & ? & ? & ?).
    exists xo, xh, xl, xc. repeat (split; [done |]). split.
    - rewrite <- Hxh. by apply list_elem_of_fmap_2.
    - rewrite <- Hxl. by apply list_elem_of_fmap_2. }
  destruct Hh as (m & Hm & _ & Hmax). destruct Hl as (n & Hn & _ & Hmin).
  intros o h l c Eo Eh El Ec.
  rewrite Hm in Eh. rewrite Hn in El. injection Eh as <-. injection El as <-.
  assert (Hopen : (n <= o)%Q ∧ (o <= m)%Q).
  { destruct Ho as (pre & o' & post & Hcol & _ & Ho'). rewrite Eo in Ho'.
    injection Ho' as <-.
    assert (Hin : Some o ∈ r_open <$> rows) by (rewrite Hcol; apply elem_of_app; right; left).
    apply list_elem_of_fmap in Hin as (x & Hxo & Hx).
    destruct (Hrows x Hx) as (xo & xh & xl & xc & Exo & _ & _ & _ & ? & ? & _ & _ & Hinh & Hinl).
    rewrite Exo in Hxo. injection Hxo as ->.
    split; [eapply Qle_trans; [by apply Hmin |] | eapply Qle_trans; [| by apply Hmax]]; done. }
  assert (Hclose : (n <= c)%Q ∧ (c <= m)%Q).
  { destruct Hc as (pre & c' & post & Hcol & _ & Hc'). rewrite Ec in Hc'.
    injection Hc' as <-.
    assert (Hin : Some c ∈ r_close <$> rows) by (rewrite Hcol; apply elem_of_app; right; left).
    apply list_elem_of_fmap in Hin as (x & Hxc & Hx).
    destruct (Hrows x Hx) as (xo & xh & xl & xc & _ & _ & _ & Exc & _ & _ & ? & ? & Hinh & Hinl).
    rewrite Exc in Hxc. injection Hxc as ->.
    split; [eapply Qle_trans; [by apply Hmin |] | eapply Qle_trans; [| by apply Hmax]]; done. }
  tauto.
Qed.

Lemma aggregate_keeps_prices_consistent_witness :
  Forall raw_upright
    [RawCandle Sample.midnight (Some 100%Q) (Some 105%Q) (Some 99%Q) (Some 104%Q)
               (Some 20%Q)].
Proof.
  apply (aggregate_keeps_prices_consistent true
           (raw_of <$> Sample.candles_around [100; 104]%Q) _ "5m" (5 * minute_ns)).
  - reflexivity.
  - vm_compute. reflexivity.
  - apply Forall_forall. intros x Hx.
    apply elem_of_cons in Hx as [-> | Hx];
      [| apply elem_of_cons in Hx as [-> | Hx]; [| by apply elem_of_nil in Hx]].
    all: split; [reflexivity |].
    all: intros o h l c [= <-] [= <-] [= <-] [= <-].
    all: repeat split; vm_compute; discriminate.
Defined.

(** ** Aggregation conserves volume *)

Lemma Qsum_cons v l : Qsum (v :: l) = (v + Qsum l)%Q.
Proof. reflexivity. Qed.

Lemma Qsum_Permutation l l' : l ≡ₚ l' → (Qsum l == Qsum l')%Q.
Proof.
  induction 1 as [| x l l' _ IH | x y l | l l' l'' _ IH1 _ IH2].
  - reflexivity.
  - rewrite !Qsum_cons, IH. reflexivity.
  - rewrite !Qsum_cons. ring.
  - by rewrite IH1.
Qed.

Lemma Qsum_fmap_ext {A} (f g : A → Q) S :
  (∀ s, s ∈ S → f s == g s)%Q → (Qsum (f <$> S) == Qsum (g <$> S))%Q.
Proof.
  induction S as [| s S IH]; intros H; [reflexivity |].
  cbn [fmap list_fmap]. rewrite !Qsum_cons, (H s) by left.
  rewrite IH; [reflexivity |]. intros s' Hs'. apply H. by right.
Qed.

Lemma Qsum_fmap_plus {A} (f g : A → Q) S :
  (Qsum ((λ s, f s + g s) <$> S) == Qsum (f <$> S) + Qsum (g <$> S))%Q.
Proof.
  induction S as [| s S IH]; [reflexivity |].
  cbn [fmap list_fmap]. rewrite !Qsum_cons, IH. ring.
Qed.

Lemma Qsum_fmap_zero {A} (S : list A) : (Qsum ((λ _, 0) <$> S) == 0)%Q.
Proof.
  induction S as [| s S IH]; [reflexivity |].
  cbn [fmap list_fmap]. rewrite Qsum_cons, IH. reflexivity.
Qed.

Lemma Qsum_indicator (S : list Z) s0 v :
  NoDup S → s0 ∈ S →
  (Qsum ((λ s, if decide (s0 = s) then v else 0) <$> S) == v)%Q.
Proof.
  induction 1 as [| s S Hnot Hnd IH]; [by intros ?%elem_of_nil |].
  intros Hin. cbn [fmap list_fmap]. rewrite Qsum_cons. case_decide as Hs.
  - subst s.
    rewrite (Qsum_fmap_ext _ (λ _, 0%Q)), Qsum_fmap_zero; [ring |].
    intros s Hs. case_decide; [by subst | reflexivity].
  - apply elem_of_cons in Hin as [-> | Hin]; [done |]. rewrite IH by done. ring.
Qed.

(** The volume of a row, an undefined one counting for nothing. *)
Lemma total_volume_cons x l :
  (total_volume (x :: l) == default 0 (r_volume x) + total_volume l)%Q.
Proof.
  unfold total_volume, agg_sum. cbn [fmap list_fmap omap list_omap].
  destruct (r_volume x); cbn [default from_option id mbind option_bind].
  - reflexivity.
  - symmetry. apply Qplus_0_l.
Qed.

Lemma total_volume_Permutation l l' :
  l ≡ₚ l' → (total_volume l == total_volume l')%Q.
Proof.
  intros H. unfold total_volume, agg_sum. apply Qsum_Permutation. by rewrite H.
Qed.

Lemma total_volume_partition (key : raw_candle → Z) (S : list Z) (L : list raw_candle) :
  NoDup S → Forall (λ x, key x ∈ S) L →
  (Qsum ((λ s, total_volume (filter (λ x, key x = s) L)) <$> S) == total_volume L)%Q.
Proof.
  intros Hnd. induction 1 as [| x L Hx _ IH].
  - apply Qsum_fmap_zero.
  - rewrite (Qsum_fmap_ext _
      (λ s, (if decide (key x = s) then default 0 (r_volume x) else 0)
            + total_volume (filter (λ x, key x = s) L))%Q).
    + rewrite Qsum_fmap_plus, Qsum_indicator, IH, total_volume_cons by done.
      reflexivity.
    + intros s _. rewrite filter_cons. case_decide.
      * apply total_volume_cons.
      * ring.
Qed.

Lemma total_volume_filter (P : raw_candle → Prop) `{∀ x, Decision (P x)} L :
  Forall (λ r, ¬ P r → default 0 (r_volume r) == 0)%Q L →
  (total_volume (filter P L) == total_volume L)%Q.
Proof.
  induction 1 as [| r L Hr _ IH]; [reflexivity |].
  rewrite filter_cons. case_decide.
  - by rewrite !total_volume_cons, IH.
  - rewrite total_volume_cons, IH, Hr by done. ring.
Qed.

Lemma total_volume_reduce bins :
  total_volume (ohlcv_reduce <$> bins)
  = Qsum ((λ b : Z * list raw_candle, total_volume b.2) <$> bins).
Proof.
  induction bins as [| b bins IH]; [done |].
  cbn [fmap list_fmap]. rewrite Qsum_cons, <- IH. by destruct b.
Qed.

Lemma bin_start_in_bins w df a b x :
  0 < w →
  head (sort_values_raw df) = Some a → last (sort_values_raw df) = Some b →
  x ∈ df →
  bin_start w (r_timestamp x)
  ∈ (λ k, bin_start w (r_timestamp a) + k * w)
      <$> seqZ 0 ((bin_start w (r_timestamp b) - bin_start w (r_timestamp a)) `div` w + 1).
Proof.
  intros Hw Ha Hb Hx.
  destruct (sorted_bounds df a b x Ha Hb Hx) as [Hlo Hhi].
  pose proof (bin_start_mono w _ _ Hw Hlo) as Hlo'.
  pose proof (bin_start_mono w _ _ Hw Hhi) as Hhi'.
  unfold bin_start in *.
  set (ka := r_timestamp a `div` w) in *.
  set (kb := r_timestamp b `div` w) in *.
  set (kx := r_timestamp x `div` w) in *.
  apply list_elem_of_fmap. exists (kx - ka). split; [lia |].
  apply elem_of_seqZ.
  replace (kb * w - ka * w) with ((kb - ka) * w) by lia.
  rewrite Z.div_mul by lia. nia.
Qed.

Lemma resample_conserves_volume w df :
  0 < w → Forall (λ x, row_complete x = true) df →
  (total_volume (resample_ohlcv w df) == total_volume df)%Q.
Proof.
  intros Hw Hdf.
  assert (Hperm : sort_values_raw df ≡ₚ df) by apply stable_sort_Permutation.
  destruct (head (sort_values_raw df)) as [a |] eqn:Ha.
  2:{ apply head_None in Ha. rewrite Ha in Hperm.
      apply Permutation_nil in Hperm. subst df. reflexivity. }
  destruct (last (sort_values_raw df)) as [b |] eqn:Hb.
  2:{ apply last_None in Hb. rewrite Hb in Ha. done. }
  unfold resample_ohlcv. rewrite total_volume_filter.
  - rewrite total_volume_reduce, (resample_bins w df a b) by done.
    rewrite <- list_fmap_compose.
    rewrite <- (total_volume_Permutation _ _ Hperm).
    rewrite <- (total_volume_partition (λ x, bin_start w (r_timestamp x))
                  ((λ k, bin_start w (r_timestamp a) + k * w)
                     <$> seqZ 0 ((bin_start w (r_timestamp b)
                                  - bin_start w (r_timestamp a)) `div` w + 1))
                  (sort_values_raw df)).
    + rewrite <- list_fmap_compose. reflexivity.
    + apply NoDup_fmap_2_strong; [| apply NoDup_seqZ]. intros k1 k2 _ _ Hk. nia.
    + apply Forall_forall. intros x Hx. rewrite Hperm in Hx.
      by apply (bin_start_in_bins w df a b).
  - apply Forall_forall. intros r Hr Hincomplete.
    apply list_elem_of_fmap in Hr as ([s rows] & -> & Hbin).
    rewrite (resample_bins w df a b) in Hbin by done.
    apply list_elem_of_fmap in Hbin as (k & [= -> ->] & _).
    set (s := bin_start w (r_timestamp a) + k * w) in *.
    destruct (bucket w s df) as [| x rows] eqn:Hbucket; [reflexivity |].
    exfalso. apply Hincomplete. apply row_complete_reduce.
    assert (Hx : x ∈ bucket w s df) by (rewrite Hbucket; left).
    apply elem_of_bucket in Hx as (Hxdf & _ & _); [| done].
    rewrite Forall_forall in Hdf. specialize (Hdf x Hxdf).
    unfold row_complete in Hdf.
    rewrite !andb_true_iff, !bool_decide_eq_true in Hdf.
    destruct Hdf as [[[[[o Ho] [h Hh]] [l Hl]] [c Hc]] _].
    split_and!; [exists o; rewrite <- Ho | exists h; rewrite <- Hh
                | exists l; rewrite <- Hl | exists c; rewrite <- Hc];
      cbn [fmap list_fmap]; left.
Qed.

(** X9.  Aggregation conserves volume: for a frame without undefined
    cells, the volumes of the aggregated rows add up to the volumes of the
    input rows. *)
Theorem aggregate_conserves_volume (datetime_index : bool)
    (df out : list raw_candle) (tf : string) :
  aggregate_from_1m datetime_index df tf = Ok out →
  Forall (λ x, row_complete x = true) df →
  (total_volume out == total_volume df)%Q.
Proof.
  intros Hout Hdf. unfold aggregate_from_1m in Hout.
  destruct (String.eqb tf "1m"); [by injection Hout as <- |].
  destruct (offset_map tf) as [w |] eqn:Hw; [| done].
  destruct datetime_index; [| done].
  injection Hout as <-. apply resample_conserves_volume; [| done].
  by eapply offset_map_pos.
Qed.

Lemma aggregate_conserves_volume_witness :
  (total_volume
     [RawCandle Sample.midnight (Some 100%Q) (Some 105%Q) (Some 99%Q) (Some 104%Q)
                (Some 20%Q)]
   == total_volume (raw_of <$> Sample.candles_around [100; 104]%Q))%Q.
Proof.
  apply (aggregate_conserves_volume true _ _ "5m").
  - vm_compute. reflexivity.
  - repeat constructor.
Defined.

(** ** Feature engine: shape of the feature frame *)

Lemma dropna_row_candle r f : dropna_row r = Some f → f_candle f = c_candle r.
Proof.
  unfold dropna_row. destruct (xnum_isna _); [done |].
  repeat case_match; try done. by intros [= <-].
Qed.

Lemma dropna_sublist cells :
  (f_candle <$> omap dropna_row cells) `sublist_of` (c_candle <$> cells).
Proof.
  induction cells as [| r cells IH]; [constructor |].
  cbn [omap list_omap fmap list_fmap].
  destruct (dropna_row r) as [f |] eqn:Hf.
  - cbn [fmap list_fmap]. rewrite (dropna_row_candle r f Hf). by apply sublist_skip.
  - by apply sublist_cons.
Qed.

Lemma assemble_candles df ret e8 e21 e50 rsi atr sd mom :
  c_candle <$> assemble df ret e8 e21 e50 rsi atr sd mom = df.
Proof.
  unfold assemble. rewrite fmap_imap.
  rewrite (imap_ext _ (const id)) by done.
  by rewrite imap_const, list_fmap_id.
Qed.

(** X10.  Whether the indicators come from the library or from the
    fallback, the candles of the feature frame are candles of the input
    frame, in the input order: rows are only ever dropped. *)
Theorem compute_features_sublist sqrt ta (df : list candle) :
  (f_candle <$> compute_features sqrt ta df) `sublist_of` df.
Proof.
  unfold compute_features. destruct (_ <? _)%nat; [apply sublist_nil_l |].
  destruct (library_features sqrt ta df) as [feat | msg] eqn:Hlib.
  - unfold library_features in Hlib.
    repeat (apply result_bind_ok in Hlib as (? & _ & Hlib)).
    injection Hlib as <-.
    etrans; [apply dropna_sublist |]. by rewrite assemble_candles.
  - unfold fallback_features.
    etrans; [apply dropna_sublist |]. by rewrite assemble_candles.
Qed.

Lemma rolling_warmup {A} k (usable : A → option Q) agg (col : list A) i :
  (S i < k)%nat → col_at (rolling k usable agg col) i = None.
Proof.
  intros Hi. unfold col_at, rolling. rewrite list_lookup_imap.
  destruct (col !! i) as [x |]; [| done]. cbn.
  unfold window. destruct (Nat.leb_spec k (S i)); [lia | done].
Qed.

Lemma omap_imap_drop {A B C} (f : B → option C) (g : nat → A → B) k l :
  (∀ i x, (i < k)%nat → f (g i x) = None) →
  omap f (imap g l) = omap f (imap (λ i, g (k + i)%nat) (drop k l)).
Proof.
  revert g l. induction k as [| k IH]; intros g l Hskip; [done |].
  destruct l as [| x l]; [done |].
  rewrite imap_cons. cbn [omap list_omap drop]. rewrite Hskip by lia.
  rewrite (IH (g ∘ S)); [done |]. intros i y Hi. apply Hskip. lia.
Qed.

Lemma fallback_features_drop sqrt df :
  (f_candle <$> fallback_features sqrt df) `sublist_of` drop 13 df.
Proof.
  unfold fallback_features, assemble.
  rewrite (omap_imap_drop _ _ 13).
  - etrans; [apply dropna_sublist |]. rewrite fmap_imap.
    rewrite (imap_ext _ (const id)) by done.
    by rewrite imap_const, list_fmap_id.
  - intros i r Hi. unfold dropna_row. cbn.
    rewrite rolling_warmup by lia.
    destruct (xnum_isna _); [done |]. by repeat case_match.
Qed.

(** X11.  Without [pandas_ta] the first thirteen rows never reach the
    feature frame: its candles are candles of the frame from the fourteenth
    row on, in their order, so there are at most as many as the frame has
    rows beyond thirteen.  On fewer than fourteen candles the feature frame
    is empty and the heuristic answers none with confidence 0, the last
    close as entry and no levels. *)
Theorem short_frame_without_ta sqrt (df : list candle) :
  (f_candle <$> compute_features sqrt None df) `sublist_of` drop 13 df
  ∧ (length (compute_features sqrt None df) ≤ length df - 13)%nat
  ∧ ((length df < 14)%nat →
     compute_features sqrt None df = []
     ∧ heuristic_signal_from_df sqrt None df
       = MkSignal "none" 0 (default 0%Q (close <$> last df)) 0 0).
Proof.
  assert (Hsub : (f_candle <$> compute_features sqrt None df) `sublist_of` drop 13 df).
  { destruct (compute_features_without_ta sqrt df) as [-> | ->];
      [apply sublist_nil_l | apply fallback_features_drop]. }
  assert (Hlen : (length (compute_features sqrt None df) ≤ length df - 13)%nat).
  { apply sublist_length in Hsub. by rewrite length_fmap, length_drop in Hsub. }
  split; [done |]. split; [done |]. intros Hshort.
  assert (Hnil : compute_features sqrt None df = []).
  { destruct (compute_features sqrt None df) as [| f feat]; [done |].
    cbn [length] in Hlen. lia. }
  split; [done |].
  unfold heuristic_signal_from_df. rewrite Hnil.
  by destruct (last df) as [row |].
Qed.

Lemma short_frame_without_ta_witness :
  heuristic_signal_from_df Sample.sqrt8 None (take 13 Sample.rising)
  = MkSignal "none" 0 112 0 0.
Proof.
  apply (short_frame_without_ta Sample.sqrt8 (take 13 Sample.rising)).
  vm_compute. lia.
Defined.

(** ** Feature engine: range of the fallback RSI *)

Lemma rsi_of_rs_range rs : (0 <= rs)%Q → (0 <= rsi_of_rs rs)%Q ∧ (rsi_of_rs rs < 100)%Q.
Proof.
  intros Hrs. unfold rsi_of_rs, Qdiv.
  assert (Hpos : (0 < 1 + rs)%Q) by lra.
  pose proof (Qinv_lt_0_compat _ Hpos) as Ht.
  assert (Hone : ((1 + rs) * / (1 + rs) == 1)%Q) by (apply Qmult_inv_r; lra).
  assert (Hprod : (0 <= rs * / (1 + rs))%Q)
    by (apply Qmult_le_0_compat; [done | by apply Qlt_le_weak]).
  set (t := (/ (1 + rs))%Q) in *. clearbody t. split; lra.
Qed.

Lemma rs_cell_nonneg u d :
  (∀ x, u = Some x → 0 <= x)%Q → (∀ x, d = Some x → 0 <= x)%Q →
  (0 <= rs_cell u d)%Q.
Proof.
  intros Hu Hd. unfold rs_cell.
  destruct u as [u |], d as [d |]; try apply Qle_refl.
  destruct (Qeq_bool d 0); [apply Qle_refl |].
  unfold Qdiv. apply Qmult_le_0_compat; [by apply Hu |].
  apply Qinv_le_0_compat. by apply Hd.
Qed.

Lemma Qsum_nonpos vals : Forall (λ v, v <= 0)%Q vals → (Qsum vals <= 0)%Q.
Proof.
  induction 1 as [| v vals Hv _ IH]; [apply Qle_refl |].
  unfold Qsum in *. cbn [foldr]. lra.
Qed.

Lemma Qmean_nonpos vals : Forall (λ v, v <= 0)%Q vals → (Qmean vals <= 0)%Q.
Proof.
  intros H. unfold Qmean, Qdiv.
  assert (Hinv : (0 <= / inject_Z (Z.of_nat (length vals)))%Q).
  { apply Qinv_le_0_compat. unfold Qle. simpl. lia. }
  pose proof (Qsum_nonpos vals H) as Hs.
  assert (Hprod : (0 <= (- Qsum vals) * / inject_Z (Z.of_nat (length vals)))%Q)
    by (apply Qmult_le_0_compat; [lra | done]).
  lra.
Qed.

(** The cells a rolling mean reads all satisfy what the column satisfies. *)
Lemma rolling_mean_cells (P : Q → Prop) col i m :
  rolling 14 id Qmean col !! i = Some (Some m) →
  (∀ j x, col !! j = Some (Some x) → P x) →
  ∃ vals, m = Qmean vals ∧ Forall P vals.
Proof.
  intros Hm Hcol.
  apply rolling_lookup in Hm as (w & vals & Hw & Hvals & ->).
  exists vals. split; [done |].
  apply Forall_forall. intros v Hv.
  apply mapM_Some in Hvals.
  apply list_elem_of_lookup in Hv as [n Hn].
  destruct (Forall2_lookup_r _ _ _ _ _ Hvals Hn) as (x & Hx & Hid).
  simpl in Hid. subst x.
  apply list_elem_of_lookup_2 in Hx.
  destruct (window_elem _ _ _ _ _ Hw Hx) as (j & _ & Hj). by eapply Hcol.
Qed.

Lemma fallback_rsi_range c i r :
  fallback_rsi c !! i = Some r → (0 <= r)%Q ∧ (r < 100)%Q.
Proof.
  unfold fallback_rsi. intros Hr.
  apply lookup_zip_with_Some in Hr as (u & d & -> & Hu & Hd).
  apply rsi_of_rs_range, rs_cell_nonneg.
  - intros x ->.
    destruct (rolling_mean_cells (λ v, 0 <= v)%Q _ _ _ Hu) as (vals & -> & Hvals).
    + intros j y Hj. unfold clip_lower0 in Hj. rewrite list_lookup_fmap in Hj.
      destruct (diff c !! j) as [[dj |] |]; try done. injection Hj as <-.
      destruct (Qltb dj 0) eqn:E; [apply Qle_refl | by apply Qltb_false].
    + by apply Qmean_nonneg.
  - intros x ->. rewrite list_lookup_fmap in Hd.
    destruct (rolling 14 id Qmean (clip_upper0 (diff c)) !! i) as [[m |] |] eqn:Hm;
      [| done | done].
    injection Hd as <-.
    destruct (rolling_mean_cells (λ v, v <= 0)%Q _ _ _ Hm) as (vals & -> & Hvals).
    + intros j y Hj. unfold clip_upper0 in Hj. rewrite list_lookup_fmap in Hj.
      destruct (diff c !! j) as [[dj |] |]; try done. injection Hj as <-.
      destruct (Qltb 0 dj) eqn:E; [apply Qle_refl | by apply Qltb_false].
    + pose proof (Qmean_nonpos vals Hvals). lra.
Qed.

(** X12.  Without [pandas_ta], the [rsi14] of every feature row lies
    between 0 and 100. *)
Theorem fallback_rsi14_range sqrt (df : list candle) :
  Forall (λ lst, (0 <= rsi14 lst)%Q ∧ (rsi14 lst <= 100)%Q)
         (compute_features sqrt None df).
Proof.
  destruct (compute_features_without_ta sqrt df) as [-> | ->]; [constructor |].
  apply Forall_forall. intros lst Hin.
  destruct (fallback_features_row sqrt df lst Hin) as (i & _ & Hrsi & _).
  destruct (fallback_rsi_range _ _ _ Hrsi) as [Hlo Hhi].
  split; [done | by apply Qlt_le_weak].
Qed.

(** ** Strategies: confidence and levels *)

Lemma py_min_le_l a b : (py_min a b <= a)%Q.
Proof.
  unfold py_min. destruct (Qltb b a) eqn:E; [| apply Qle_refl].
  apply Qltb_true in E. by apply Qlt_le_weak.
Qed.

Lemma py_min_glb a b c : (c <= a)%Q → (c <= b)%Q → (c <= py_min a b)%Q.
Proof. intros. unfold py_min. by destruct (Qltb b a). Qed.

(** X13.  Whatever the frame and the indicator library, the confidence of
    the heuristic never exceeds 0.95. *)
Theorem heuristic_confidence_at_most_95 sqrt ta (df : list candle) :
  (s_confidence (heuristic_signal_from_df sqrt ta df) <= 95 # 100)%Q.
Proof.
  unfold heuristic_signal_from_df.
  destruct (last df) as [row |]; [| done].
  destruct (last (compute_features sqrt ta df)) as [lst |]; [| done].
  cbn [s_confidence]. unfold heuristic_confidence.
  destruct (negb _); [apply py_min_le_l | done].
Qed.

Lemma ewm_go_pos alpha prev col :
  (0 < alpha)%Q → (alpha <= 1)%Q → (0 < prev)%Q → Forall (λ x, 0 < x)%Q col →
  Forall (λ x, 0 < x)%Q (ewm_go alpha prev col).
Proof.
  intros Ha Ha1 Hprev Hcol. revert prev Hprev.
  induction Hcol as [| x col Hx _ IH]; intros prev Hprev; [constructor |].
  cbn [ewm_go].
  assert (Hy : (0 < (1 - alpha) * prev + alpha * x)%Q).
  { assert (0 <= (1 - alpha) * prev)%Q
      by (apply Qmult_le_0_compat; [lra | by apply Qlt_le_weak]).
    assert (0 < alpha * x)%Q by by apply Qmult_lt_0_compat.
    lra. }
  constructor; [done | by apply IH].
Qed.

Lemma ewm_mean_pos span col :
  1 ≤ span → Forall (λ x, 0 < x)%Q col → Forall (λ x, 0 < x)%Q (ewm_mean span col).
Proof.
  intros Hspan Hcol. destruct Hcol as [| x col Hx Hcol]; [constructor |].
  cbn [ewm_mean]. constructor; [done |].
  assert (Hden : (0 < inject_Z span + 1)%Q).
  { assert (0 <= inject_Z span)%Q by (unfold Qle; simpl; lia). lra. }
  apply ewm_go_pos; [| | done | done].
  - apply Qlt_shift_div_l; [done |]. lra.
  - apply Qle_shift_div_r; [done |].
    assert (1 <= inject_Z span)%Q by (unfold Qle; simpl; lia). lra.
Qed.

Lemma fallback_features_ema50 sqrt df lst :
  lst ∈ fallback_features sqrt df →
  ∃ i, ewm_mean 50 (close <$> df) !! i = Some (ema50 lst).
Proof.
  unfold fallback_features. intros Hin.
  apply list_elem_of_omap in Hin as (cells & Hcells & Hdrop).
  apply list_elem_of_lookup in Hcells as [i Hi].
  unfold assemble in Hi. rewrite list_lookup_imap in Hi.
  destruct (df !! i) as [r |] eqn:Hr; [| done].
  injection Hi as <-. exists i.
  unfold dropna_row in Hdrop. cbn in Hdrop.
  destruct (xnum_isna _); [done |].
  repeat match type of Hdrop with
         | match ?x with _ => _ end = _ => destruct x eqn:?; [| done]
         end.
  injection Hdrop as <-. cbn.
  match goal with
  | H : col_at (Some <$> ewm_mean 50 _) i = Some ?q |- _ =>
      unfold col_at in H; rewrite list_lookup_fmap in H;
      destruct (ewm_mean 50 _ !! i); [by injection H as -> | done]
  end.
Qed.

Lemma heuristic_confidence_directional label e8 e50 rsi :
  label ≠ "none" → (0 <= e50)%Q →
  (55 # 100 <= heuristic_confidence label e8 e50 rsi)%Q.
Proof.
  intros Hlabel He50. unfold heuristic_confidence.
  destruct (String.eqb_spec label "none") as [-> | _]; [done |]. cbn [negb].
  apply py_min_glb; [done |].
  assert (Hsep : (0 <= Qabs (e8 - e50) / (if negb (Qeq_bool e50 0) then e50 else 1))%Q).
  { unfold Qdiv. apply Qmult_le_0_compat; [apply Qabs_nonneg |].
    apply Qinv_le_0_compat. by destruct (negb _). }
  assert (Hrsi : (0 <= Qabs (rsi - 50) / 50)%Q).
  { unfold Qdiv. apply Qmult_le_0_compat; [apply Qabs_nonneg | done]. }
  set (sep := (Qabs (e8 - e50) / _)%Q) in *. set (d := (Qabs (rsi - 50) / 50)%Q) in *.
  clearbody sep d. lra.
Qed.

(** X14.  Without [pandas_ta] and on positive closes, a long or short
    heuristic signal has a confidence of at least 0.55. *)
Theorem directional_confidence_at_least_55 sqrt (df : list candle) :
  Forall (λ r, 0 < close r)%Q df →
  s_label (heuristic_signal_from_df sqrt None df) ≠ "none" →
  (55 # 100 <= s_confidence (heuristic_signal_from_df sqrt None df))%Q.
Proof.
  intros Hpos. unfold heuristic_signal_from_df.
  destruct (last df) as [row |]; [| done].
  destruct (last (compute_features sqrt None df)) as [lst |] eqn:Hlast; [| done].
  cbn [s_label s_confidence]. intros Hlabel.
  apply heuristic_confidence_directional; [done |].
  destruct (compute_features_without_ta sqrt df) as [E | E]; rewrite E in Hlast;
    [done |].
  apply last_Some_elem_of in Hlast.
  destruct (fallback_features_ema50 sqrt df lst Hlast) as (i & Hi).
  apply Qlt_le_weak.
  assert (Hall : Forall (λ x, 0 < x)%Q (ewm_mean 50 (close <$> df))).
  { apply ewm_mean_pos; [lia |]. by apply Forall_fmap. }
  rewrite Forall_lookup in Hall. by apply (Hall i).
Qed.

Lemma directional_confidence_at_least_55_witness :
  (55 # 100
   <= s_confidence (heuristic_signal_from_df Sample.sqrt8 None Sample.zigzag_up))%Q.
Proof.
  apply (directional_confidence_at_least_55 Sample.sqrt8 Sample.zigzag_up).
  - apply Forall_forall. intros r Hr.
    apply list_elem_of_lookup in Hr as [i Hi].
    unfold Sample.zigzag_up, Sample.candles_around in Hi.
    rewrite list_lookup_imap, list_lookup_fmap in Hi.
    destruct (seq 0 20 !! i) as [n |]; [| done]. injection Hi as <-. cbn [close].
    unfold Qlt. cbn. pose proof (Z.mod_pos_bound (Z.of_nat n) 2). lia.
  - vm_compute. discriminate.
Defined.

Lemma levels_of_label label conf last_close atr :
  levels_two_to_one last_close
    (MkSignal label conf last_close (stop_level label last_close atr)
              (target_level label last_close atr)).
Proof.
  unfold levels_two_to_one, stop_level, target_level. cbn.
  split; [done |]. split; [| split].
  - intros ->. cbn. ring.
  - intros ->. cbn. ring.
  - intros Hl Hs.
    destruct (String.eqb_spec label "long"); [done |].
    by destruct (String.eqb_spec label "short").
Qed.

Lemma heuristic_levels sqrt ta df row :
  last df = Some row →
  levels_two_to_one (close row) (heuristic_signal_from_df sqrt ta df).
Proof.
  intros Hrow. unfold heuristic_signal_from_df. rewrite Hrow.
  destruct (last (compute_features sqrt ta df)) as [lst |];
    [apply levels_of_label |].
  repeat split; done.
Qed.

(** X15.  Whichever strategy produced it, a signal on a non-empty frame
    has the close of the last candle as its entry; a long or short signal
    has its target twice as far from the entry as its stop, on the opposite
    side; any other label carries no levels. *)
Theorem signal_levels_two_to_one sqrt ta MODEL META (df : list candle) row s :
  last df = Some row →
  s = heuristic_signal_from_df sqrt ta df
  ∨ model_predict_from_df sqrt ta MODEL META df = Ok s →
  levels_two_to_one (close row) s.
Proof.
  intros Hrow [-> | Hs]; [by apply heuristic_levels |].
  unfold model_predict_from_df in Hs.
  destruct MODEL as [model |], META as [meta |];
    try (injection Hs as <-; by apply heuristic_levels).
  destruct (last (compute_features sqrt ta df)) as [lst |];
    [| injection Hs as <-; by apply heuristic_levels].
  destruct (default [] (meta_features meta)) as [| c cols];
    [injection Hs as <-; by apply heuristic_levels |].
  apply result_bind_ok in Hs as (X & _ & Hs).
  destruct (predict_proba model X) as [probs | msg];
    [| injection Hs as <-; by apply heuristic_levels].
  apply result_bind_ok in Hs as (idx & _ & Hs). rewrite Hrow in Hs.
  destruct (classes_ model !! idx) as [cls |]; [| done].
  destruct (probs !! idx) as [p |]; [| done].
  injection Hs as <-. apply levels_of_label.
Qed.

Lemma signal_levels_two_to_one_witness :
  levels_two_to_one 135 (heuristic_signal_from_df Sample.sqrt8 None Sample.zigzag_up).
Proof.
  apply (signal_levels_two_to_one Sample.sqrt8 None None None Sample.zigzag_up
           (Candle (Sample.midnight + 19 * minute_ns) 135 136 134 135 10)).
  - vm_compute. reflexivity.
  - by left.
Defined.

(** ** Model strategy: the class it picks *)

Lemma argmax_go_spec (L pre l : list Q) best besti :
  L = pre ++ l → L !! besti = Some best → (besti < length pre)%nat →
  (∀ j p, pre !! j = Some p → p <= best)%Q →
  (∀ j p, (j < besti)%nat → pre !! j = Some p → p < best)%Q →
  ∃ m, L !! argmax_go best besti (length pre) l = Some m
       ∧ (∀ j p, L !! j = Some p → p <= m)%Q
       ∧ (∀ j p, (j < argmax_go best besti (length pre) l)%nat →
                 L !! j = Some p → p < m)%Q.
Proof.
  revert pre best besti. induction l as [| x l IH]; intros pre best besti HL Hbest Hlt Hle Hfirst.
  - rewrite app_nil_r in HL. subst L. cbn [argmax_go]. exists best.
    split; [done |]. split; [done |]. done.
  - cbn [argmax_go].
    assert (HL' : L = (pre ++ [x]) ++ l) by by rewrite <- app_assoc.
    assert (Hlen : length (pre ++ [x]) = S (length pre)) by (rewrite length_app; cbn; lia).
    assert (Hx : L !! length pre = Some x).
    { rewrite HL. rewrite lookup_app_r by lia. by rewrite Nat.sub_diag. }
    destruct (Qltb best x) eqn:E.
    + apply Qltb_true in E. rewrite <- Hlen.
      apply IH; [done | done | lia | |].
      * intros j p Hj. apply lookup_app_Some in Hj as [Hj | [_ Hj]].
        -- specialize (Hle j p Hj). lra.
        -- apply list_lookup_singleton_Some in Hj as [_ <-]. apply Qle_refl.
      * intros j p Hjlt Hj. apply lookup_app_Some in Hj as [Hj | [? _]]; [| lia].
        specialize (Hle j p Hj). lra.
    + apply Qltb_false in E. rewrite <- Hlen.
      apply IH; [done | done | lia | |].
      * intros j p Hj. apply lookup_app_Some in Hj as [Hj | [_ Hj]].
        -- by apply (Hle j).
        -- by apply list_lookup_singleton_Some in Hj as [_ <-].
      * intros j p Hjlt Hj. apply lookup_app_Some in Hj as [Hj | [? _]]; [| lia].
        by apply (Hfirst j).
Qed.

Lemma argmax_spec probs idx :
  argmax probs = Ok idx →
  ∃ m, probs !! idx = Some m
       ∧ (∀ j p, probs !! j = Some p → p <= m)%Q
       ∧ (∀ j p, (j < idx)%nat → probs !! j = Some p → p < m)%Q.
Proof.
  destruct probs as [| x r]; [done |]. intros [= <-].
  apply (argmax_go_spec (x :: r) [x] r x 0%nat); [done | done | cbn; lia | |].
  - intros [| j] p Hj; [| done]. injection Hj as <-. apply Qle_refl.
  - intros j p Hj. lia.
Qed.

(** X16.  When the classifier answers, the signal of the model strategy
    carries the largest of the returned probabilities as its confidence,
    taken at the first position where it occurs, and the label that the
    label map gives for the class at that position, or none when the map
    has no entry for it. *)
Theorem model_confidence_is_top_probability sqrt ta model meta
    (df : list candle) lst cols X probs s :
  last (compute_features sqrt ta df) = Some lst →
  meta_features meta = Some cols → cols ≠ [] →
  feature_vector lst cols = Ok X →
  predict_proba model X = Ok probs →
  model_predict_from_df sqrt ta (Some model) (Some meta) df = Ok s →
  ∃ idx cls,
    probs !! idx = Some (s_confidence s)
    ∧ classes_ model !! idx = Some cls
    ∧ (∀ j p, probs !! j = Some p → p <= s_confidence s)%Q
    ∧ (∀ j p, (j < idx)%nat → probs !! j = Some p → p < s_confidence s)%Q
    ∧ s_label s = default "none"
                    (default default_label_map (meta_label_map meta) !! class_key cls).
Proof.
  intros Hlast Hcols Hne HX Hprobs. unfold model_predict_from_df.
  rewrite Hlast, Hcols. destruct cols as [| c cols]; [done |].
  cbn [default from_option id]. rewrite HX. cbn [mbind result_bind]. rewrite Hprobs.
  destruct (argmax probs) as [idx | msg] eqn:Hidx; [| done]. cbn [mbind result_bind].
  destruct (argmax_spec probs idx Hidx) as (m & Hm & Hmax & Hfirst).
  rewrite Hm.
  destruct (classes_ model !! idx) as [cls |] eqn:Hcls; [| done].
  destruct (last df) as [row |]; [| done].
  intros [= <-]. exists idx, cls. cbn [s_confidence s_label]. done.
Qed.

Lemma model_confidence_is_top_probability_witness :
  ∃ s, model_predict_from_df Sample.sqrt8 None (Some Sample.three_class_model)
         (Some Sample.meta_known) Sample.zigzag_up = Ok s
       ∧ ∃ idx cls,
           [2 # 10; 7 # 10; 1 # 10]%Q !! idx = Some (s_confidence s)
           ∧ classes_ Sample.three_class_model !! idx = Some cls
           ∧ (∀ j p, [2 # 10; 7 # 10; 1 # 10]%Q !! j = Some p → p <= s_confidence s)%Q
           ∧ (∀ j p, (j < idx)%nat → [2 # 10; 7 # 10; 1 # 10]%Q !! j = Some p
                     → p < s_confidence s)%Q
           ∧ s_label s = default "none" (default_label_map !! class_key cls).
Proof.
  eexists. split; [vm_compute; reflexivity |].
  eapply (model_confidence_is_top_probability Sample.sqrt8 None
            Sample.three_class_model Sample.meta_known Sample.zigzag_up).
  - vm_compute. reflexivity.
  - reflexivity.
  - discriminate.
  - vm_compute. reflexivity.
  - reflexivity.
  - vm_compute. reflexivity.
Defined.

(** ** The endpoint: rejection, effects and source tags *)

Lemma unsupported_check tfs :
  existsb (λ tf, negb (str_in tf SUPPORTED_TFS)) tfs = true
  ↔ ∃ tf, tf ∈ tfs ∧ tf ∉ SUPPORTED_TFS.
Proof.
  rewrite existsb_exists. split.
  - intros (tf & Hin & Hneg). exists tf. split; [by apply list_elem_of_In |].
    intros Hsup. apply str_in_spec in Hsup. by rewrite Hsup in Hneg.
  - intros (tf & Hin & Hnot). exists tf. split; [by apply list_elem_of_In |].
    destruct (str_in tf SUPPORTED_TFS) eqn:E; [| done].
    by apply str_in_spec in E.
Qed.

(** X17.  A request that names an unsupported timeframe is refused with
    the 400 error before anything is fetched or cached, even when its other
    timeframes are supported; and the endpoint raises in no other case. *)
Theorem batch_predict_rejects_unsupported env (req : BatchRequest) (w : World) :
  ((∃ tf, tf ∈ effective_timeframes req ∧ tf ∉ SUPPORTED_TFS) →
   batch_predict env req w
   = (Raise "400: Supported timeframes: ['1m', '5m', '15m', '1h', '4h']", w))
  ∧ (∀ msg w', batch_predict env req w = (Raise msg, w') →
       ∃ tf, tf ∈ effective_timeframes req ∧ tf ∉ SUPPORTED_TFS).
Proof.
  unfold batch_predict. split.
  - intros Hbad. by rewrite (proj2 (unsupported_check _) Hbad).
  - intros msg w' Hraise.
    destruct (existsb _ (effective_timeframes req)) eqn:E;
      [by apply unsupported_check |].
    destruct (predict_loop_served env req (strip (req_symbol req)) (effective_limit req)
                (effective_timeframes req) w) as (preds & w1 & Hloop & _).
    rewrite Hloop in Hraise. discriminate.
Qed.

Lemma batch_predict_rejects_unsupported_witness :
  batch_predict (Sample.env_with None None Sample.offline) Sample.weekly_request
                Sample.boot
  = (Raise "400: Supported timeframes: ['1m', '5m', '15m', '1h', '4h']", Sample.boot).
Proof.
  apply (batch_predict_rejects_unsupported
           (Sample.env_with None None Sample.offline) Sample.weekly_request Sample.boot).
  exists "1w". split; [by right; left |].
  intros H. apply str_in_spec in H. vm_compute in H. discriminate.
Defined.

Lemma process_client_candles_world env req symbol limit tf w :
  has_client_candles req tf →
  (process_timeframe env req symbol limit tf w).2 = w.
Proof.
  intros [window Hwin]. unfold process_timeframe, resolve_source. rewrite Hwin.
  unfold mbind, M_bind, lift, mret, M_ret.
  destruct (candles_to_df (to_datetime_list env) window) as [df | msg]; [| done].
  by destruct (predict_frame env tf _ _).
Qed.

Lemma predict_loop_client_candles_world env req symbol limit tfs w :
  Forall (has_client_candles req) tfs →
  (predict_loop env req symbol limit tfs w).2 = w.
Proof.
  induction 1 as [| tf tfs Htf _ IH]; [done |].
  cbn [predict_loop]. unfold mbind at 1, M_bind at 1, try_except.
  pose proof (process_client_candles_world env req symbol limit tf w Htf) as Hw.
  destruct (process_timeframe env req symbol limit tf w) as [[p | msg] w1];
    cbn [snd] in Hw; subst w1.
  - unfold mbind, M_bind.
    destruct (predict_loop env req symbol limit tfs w) as [[ps | msg] w2]; done.
  - unfold mret at 1, M_ret at 1. unfold mbind, M_bind.
    destruct (predict_loop env req symbol limit tfs w) as [[ps | msg'] w2]; done.
Qed.

(** X18.  When the request carries candles for every timeframe it asks
    for, the endpoint answers without reading the clock, the cache, the
    network or the file system, whatever the symbol: the process state after
    the call is the state before it. *)
Theorem client_candles_touch_nothing env (req : BatchRequest) (w : World) :
  Forall (has_client_candles req) (effective_timeframes req) →
  (batch_predict env req w).2 = w.
Proof.
  intros Hall. unfold batch_predict.
  destruct (existsb _ _); [done |]. by apply predict_loop_client_candles_world.
Qed.

Lemma client_candles_touch_nothing_witness :
  (batch_predict (Sample.env_with None None Sample.offline)
                 (Sample.client_request (Sample.zigzag_closes 20)) Sample.boot).2
  = Sample.boot.
Proof.
  apply (client_candles_touch_nothing (Sample.env_with None None Sample.offline)
           (Sample.client_request (Sample.zigzag_closes 20)) Sample.boot).
  repeat constructor. unfold has_client_candles. cbn. by eexists.
Defined.

Lemma known_source_tag df src : known_source df src → source_tag src.
Proof.
  unfold source_tag.
  intros [[_ ->] | [_ [-> | [-> | [-> | [-> | [path ->]]]]]]];
    try (left; set_solver).
  right; left. unfold startswith. by destruct (basename path).
Qed.

Lemma predict_frame_source env tf df src p :
  known_source df src → predict_frame env tf df src = Ok p → source_tag (p_source p).
Proof.
  intros Hknown. destruct (known_source_not_model _ _ Hknown) as [Hsrc _].
  pose proof (known_source_tag _ _ Hknown) as Htag.
  unfold predict_frame. destruct df as [[| r df] |];
    try (intros [= <-]; left; set_solver).
  rewrite Hsrc. destruct (_ <? _)%nat; [by intros [= <-] |].
  destruct (MODEL env).
  - destruct (model_predict_from_df _ _ _ _ _); [| done].
    intros [= <-]. left. set_solver.
  - by intros [= <-].
Qed.

Lemma process_timeframe_source env req symbol limit tf w p w' :
  process_timeframe env req symbol limit tf w = (Ok p, w') → source_tag (p_source p).
Proof.
  unfold process_timeframe. intros H.
  apply bind_inv_ok in H as (r & w1 & Hres & H). destruct r as [| df src].
  - injection H as <- _. left. set_solver.
  - unfold lift in H. injection H as H _.
    eapply predict_frame_source; [| done]. by eapply resolve_source_src.
Qed.

Lemma served_source env req symbol limit tfs w preds w' :
  served env req symbol limit tfs w preds w' →
  Forall (λ p, source_tag (p_source p)) preds.
Proof.
  induction 1 as [| tf tfs w p w1 ps w2 Hp _ IH | tf tfs w msg w1 ps w2 _ _ IH];
    [constructor | |]; constructor; try done.
  - by eapply process_timeframe_source.
  - do 2 right. unfold error_prediction, startswith. cbn [p_source].
    by destruct (str_take 120 msg).
Qed.

Lemma source_tag_not_heuristic src : source_tag src → src ≠ "heuristic" ∧ src ≠ "".
Proof.
  intros [Hin | [Hpre | Hpre]].
  - repeat (apply elem_of_cons in Hin as [-> | Hin]; [done |]).
    by apply elem_of_nil in Hin.
  - split; intros ->; by vm_compute in Hpre.
  - split; intros ->; by vm_compute in Hpre.
Qed.

(** X19.  Every Prediction of a batch answer carries one of the tags
    no-data, model, client-candles, binance-rest, oanda-rest, alpha-vantage,
    or a tag that starts with local-csv: or with error:.  The tag heuristic
    and the empty tag are never produced. *)
Theorem batch_predict_source_tags env (req : BatchRequest) (w : World) preds w' :
  batch_predict env req w = (Ok preds, w') →
  Forall (λ p, source_tag (p_source p)
               ∧ p_source p ≠ "heuristic" ∧ p_source p ≠ "") preds.
Proof.
  unfold batch_predict. destruct (existsb _ _); [done |]. intros Hloop.
  destruct (predict_loop_served env req (strip (req_symbol req)) (effective_limit req)
              (effective_timeframes req) w) as (preds' & w1 & Hloop' & Hserved).
  rewrite Hloop in Hloop'. injection Hloop' as <- <-.
  eapply Forall_impl; [by eapply served_source |].
  intros p Hp. split; [done |]. by apply source_tag_not_heuristic.
Qed.

Lemma batch_predict_source_tags_witness :
  Forall (λ p, source_tag (p_source p) ∧ p_source p ≠ "heuristic" ∧ p_source p ≠ "")
         [error_prediction "1m" "ConnectTimeout"; error_prediction "5m" "ConnectTimeout"].
Proof.
  apply (batch_predict_source_tags (Sample.env_with None None Sample.offline)
           Sample.binance_request Sample.boot _ (MkWorld ∅ 4)).
  vm_compute. reflexivity.
Defined.

(** ** Source adapters and the cache *)

Lemma cache_get_hit {A} now key (c : gmap string (Z * A)) v :
  (cache_get now key c).1 = Some v →
  (cache_get now key c).2 = c ∧ ∃ ts, c !! key = Some (ts, v).
Proof.
  unfold cache_get. destruct (c !! key) as [[ts p] |]; [| done].
  destruct (_ >? _); [done |]. intros [= <-]. split; [done | by exists ts].
Qed.

Lemma cache_get_other {A} now key (c : gmap string (Z * A)) k :
  k ≠ key → (cache_get now key c).2 !! k = c !! k.
Proof.
  intros Hk. unfold cache_get. destruct (c !! key) as [[ts p] |]; [| done].
  destruct (_ >? _); [| done]. cbn [snd]. by apply lookup_delete_ne.
Qed.

Lemma fetch_binance_hit env symbol interval limit w ts df :
  _CACHE w !! binance_cache_key symbol interval limit = Some (ts, df) →
  clock env (tick w) - ts ≤ timedelta_seconds CACHE_TTL_SECONDS →
  fetch_binance_klines env symbol interval limit w
  = (Ok df, MkWorld (_CACHE w) (S (tick w))).
Proof.
  intros Hk Hage. unfold fetch_binance_klines. run_bind.
  rewrite cache_getM_run.
  unfold binance_cache_key in Hk. by rewrite (cache_get_fresh _ _ ts df) by done.
Qed.

(** X20.  A frame that the Binance adapter returns is in the cache under
    the key of its symbol, interval and limit; for as long as that entry is
    no older than the TTL, the same fetch returns the same frame with
    nothing but a reading of the clock: no request is made and the cache
    stays as it is. *)
Theorem binance_fetch_is_cached env symbol interval limit w df w1 :
  fetch_binance_klines env symbol interval limit w = (Ok df, w1) →
  ∃ ts, _CACHE w1 !! binance_cache_key symbol interval limit = Some (ts, df)
    ∧ ∀ w2, _CACHE w2 !! binance_cache_key symbol interval limit = Some (ts, df) →
        clock env (tick w2) - ts ≤ timedelta_seconds CACHE_TTL_SECONDS →
        fetch_binance_klines env symbol interval limit w2
        = (Ok df, MkWorld (_CACHE w2) (S (tick w2))).
Proof.
  intros Hfetch.
  enough (∃ ts, _CACHE w1 !! binance_cache_key symbol interval limit = Some (ts, df))
    as [ts Hts].
  { exists ts. split; [done |]. intros w2. apply fetch_binance_hit. }
  unfold fetch_binance_klines in Hfetch. fold (binance_cache_key symbol interval limit) in Hfetch.
  apply bind_inv_ok in Hfetch as (cached & w0 & Hget & Hfetch).
  rewrite cache_getM_run in Hget. injection Hget as Hcached <-.
  destruct cached as [v |].
  - injection Hfetch as <- <-. cbn [_CACHE].
    apply cache_get_hit in Hcached as [-> Hts]. done.
  - apply bind_inv_ok in Hfetch as (r & w2 & _ & Hfetch).
    apply bind_inv_ok in Hfetch as (data & w3 & _ & Hfetch).
    apply bind_inv_ok in Hfetch as (out & w4 & _ & Hfetch).
    apply bind_inv_ok in Hfetch as ([] & w5 & Hset & Hfetch).
    injection Hfetch as <- <-. unfold cache_setM in Hset. injection Hset as <-.
    cbn [_CACHE]. eexists. apply lookup_insert_eq.
Qed.

(** A reply whose body is an error object gives the empty frame, which is
    cached and answered with the no-data Prediction. *)
Lemma binance_error_object_is_no_data :
  batch_predict (Sample.env_with None None (HttpReply 200 (Some Sample.binance_error_body)))
                Sample.binance_request Sample.boot
  = (Ok [no_data "1m"; no_data "5m"],
     MkWorld (<[binance_cache_key "BINANCE:BTCUSDT" "5m" 300 := (5000000, [])]>
                (<[binance_cache_key "BINANCE:BTCUSDT" "1m" 300 := (2000000, [])]> ∅))
             6).
Proof. vm_compute. reflexivity. Qed.

Lemma binance_fetch_is_cached_witness :
  ∃ df w1,
    fetch_binance_klines (Sample.env_with None None (HttpReply 200 (Some Sample.binance_body)))
                         "BINANCE:BTCUSDT" "1m" 300 Sample.boot = (Ok df, w1)
    ∧ ∃ ts, _CACHE w1 !! binance_cache_key "BINANCE:BTCUSDT" "1m" 300 = Some (ts, df).
Proof.
  eexists _, _. split; [vm_compute; reflexivity |].
  edestruct (binance_fetch_is_cached
               (Sample.env_with None None (HttpReply 200 (Some Sample.binance_body)))
               "BINANCE:BTCUSDT" "1m" 300 Sample.boot) as (ts & Hts & _).
  - vm_compute. reflexivity.
  - exists ts. exact Hts.
Defined.

Lemma fetch_alpha_hit env symbol interval limit w apikey ts df :
  ALPHA_VANTAGE_KEY env = Some apikey → String.eqb apikey "" = false →
  (6 <=? String.length (upper (replace "_" "" (split1_tail ":" symbol))))%nat = true →
  is_Some (ALPHA_INTERVAL_MAP interval) ∨ interval = "4h" →
  _CACHE w !! alpha_cache_key symbol interval limit = Some (ts, df) →
  clock env (tick w) - ts ≤ timedelta_seconds CACHE_TTL_SECONDS →
  fetch_alpha_vantage_candles env symbol interval limit w
  = (Ok (Some df), MkWorld (_CACHE w) (S (tick w))).
Proof.
  intros Hkey Hne Hlen Hint Hk Hage. unfold fetch_alpha_vantage_candles.
  rewrite Hkey, Hne, Hlen. cbn [negb].
  assert (negb (bool_decide (is_Some (ALPHA_INTERVAL_MAP interval)))
          && negb (String.eqb interval "4h") = false) as ->.
  { destruct Hint as [Hmap | ->].
    - by rewrite bool_decide_eq_true_2.
    - by rewrite andb_false_r. }
  run_bind. rewrite cache_getM_run.
  unfold alpha_cache_key in Hk. by rewrite (cache_get_fresh _ _ ts df) by done.
Qed.

(** X21.  The Alpha Vantage adapter caches 1h and 4h frames under one key.
    After a 1h fetch has returned a frame, a 4h fetch for the same symbol
    and limit, made while that entry is no older than the TTL, returns the
    very frame of the 1h fetch: no request is made and nothing is aggregated
    to four hours. *)
Theorem alpha_4h_served_from_1h_cache env symbol limit w df w1 :
  fetch_alpha_vantage_candles env symbol "1h" limit w = (Ok (Some df), w1) →
  alpha_cache_key symbol "4h" limit = alpha_cache_key symbol "1h" limit
  ∧ ∃ ts, _CACHE w1 !! alpha_cache_key symbol "1h" limit = Some (ts, df)
    ∧ ∀ w2, _CACHE w2 !! alpha_cache_key symbol "1h" limit = Some (ts, df) →
        clock env (tick w2) - ts ≤ timedelta_seconds CACHE_TTL_SECONDS →
        fetch_alpha_vantage_candles env symbol "4h" limit w2
        = (Ok (Some df), MkWorld (_CACHE w2) (S (tick w2))).
Proof.
  intros Hfetch. split; [done |].
  unfold fetch_alpha_vantage_candles in Hfetch.
  destruct (ALPHA_VANTAGE_KEY env) as [apikey |] eqn:Hkey; [| done].
  destruct (String.eqb apikey "") eqn:Hne; [done |].
  destruct (6 <=? _)%nat eqn:Hlen; [| done]. cbn [negb] in Hfetch.
  enough (∃ ts, _CACHE w1 !! alpha_cache_key symbol "1h" limit = Some (ts, df))
    as [ts Hts].
  { exists ts. split; [done |]. intros w2 Hk Hage.
    apply (fetch_alpha_hit env symbol "4h" limit w2 apikey ts df); try done.
    by right. }
  change (negb (bool_decide (is_Some (ALPHA_INTERVAL_MAP "1h"))) && negb (String.eqb "1h" "4h"))
    with (negb (bool_decide (is_Some (Some "60min"))) && true) in Hfetch.
  rewrite bool_decide_eq_true_2 in Hfetch by by eexists. cbn [negb andb] in Hfetch.
  fold (alpha_cache_key symbol "1h" limit) in Hfetch.
  apply bind_inv_ok in Hfetch as (cached & w0 & Hget & Hfetch).
  rewrite cache_getM_run in Hget. injection Hget as Hcached <-.
  destruct cached as [v |].
  - injection Hfetch as <- <-. cbn [_CACHE].
    apply cache_get_hit in Hcached as [-> Hts]. done.
  - apply bind_inv_ok in Hfetch as (r & w2 & _ & Hfetch).
    destruct (checked_json r) as [js | msg]; [| done].
    apply bind_inv_ok in Hfetch as (parsed & w3 & _ & Hfetch).
    destruct parsed as [out |]; [| done].
    apply bind_inv_ok in Hfetch as ([] & w5 & Hset & Hfetch).
    injection Hfetch as <- <-. unfold cache_setM in Hset. injection Hset as <-.
    cbn [_CACHE]. eexists. apply lookup_insert_eq.
Qed.

Lemma alpha_4h_served_from_1h_cache_witness :
  ∃ df w1,
    fetch_alpha_vantage_candles Sample.env_alpha "XAUUSD" "1h" 300 Sample.boot
    = (Ok (Some df), w1)
    ∧ fetch_alpha_vantage_candles Sample.env_alpha "XAUUSD" "4h" 300 w1
      = (Ok (Some df), MkWorld (_CACHE w1) (S (tick w1))).
Proof.
  eexists _, _. split; [vm_compute; reflexivity |].
  edestruct (alpha_4h_served_from_1h_cache Sample.env_alpha "XAUUSD" 300 Sample.boot)
    as (_ & ts & Hts & Hserved).
  - vm_compute. reflexivity.
  - apply Hserved; [exact Hts |].
    vm_compute in Hts. injection Hts as <-. vm_compute. discriminate.
Defined.

Ltac run_effects :=
  repeat (first [ rewrite cache_getM_run
                | progress unfold mbind, M_bind, http, lift, cache_setM, mret, M_ret
                | progress cbn [fst snd _CACHE tick negb] ]).

(** X22.  Whatever the outcome of a fetch, each adapter leaves every
    cache entry other than the one under its own key as it was. *)
Theorem adapters_touch_only_their_key env symbol interval limit w k :
  (k ≠ binance_cache_key symbol interval limit →
   _CACHE (fetch_binance_klines env symbol interval limit w).2 !! k = _CACHE w !! k)
  ∧ ((∀ gran, oanda_map_tf interval = Some gran →
              k ≠ oanda_cache_key symbol gran limit) →
     _CACHE (fetch_oanda_candles env symbol interval limit w).2 !! k = _CACHE w !! k)
  ∧ (k ≠ alpha_cache_key symbol interval limit →
     _CACHE (fetch_alpha_vantage_candles env symbol interval limit w).2 !! k
     = _CACHE w !! k).
Proof.
  split; [| split].
  - intros Hk. unfold fetch_binance_klines.
    fold (binance_cache_key symbol interval limit). run_effects.
    pose proof (cache_get_other (clock env (tick w)) _ (_CACHE w) k Hk) as Hother.
    destruct (cache_get _ _ _).1; [done |]. run_effects.
    destruct (checked_json _); [| done]. run_effects.
    destruct (binance_frame _ _); [| done]. run_effects.
    unfold cache_set. by rewrite lookup_insert_ne.
  - intros Hk. unfold fetch_oanda_candles.
    destruct (falsy_token _); [done |].
    destruct (oanda_map_tf interval) as [gran |]; [| done].
    specialize (Hk gran eq_refl).
    fold (oanda_cache_key symbol gran limit). run_effects.
    pose proof (cache_get_other (clock env (tick w)) _ (_CACHE w) k Hk) as Hother.
    destruct (cache_get _ _ _).1; [done |]. run_effects.
    destruct (http_get env _ _ _) as [msg | status body]; [done |].
    destruct (negb _); [done |].
    destruct body as [js |]; [| done].
    destruct (oanda_rows env js) as [[| r rows] | msg]; try done.
    run_effects. unfold cache_set. by rewrite lookup_insert_ne.
  - intros Hk. unfold fetch_alpha_vantage_candles.
    destruct (ALPHA_VANTAGE_KEY env) as [apikey |]; [| done].
    destruct (String.eqb apikey ""); [done |].
    destruct (negb (6 <=? _)%nat); [done |].
    destruct (negb _ && negb _); [done |].
    fold (alpha_cache_key symbol interval limit). run_effects.
    pose proof (cache_get_other (clock env (tick w)) _ (_CACHE w) k Hk) as Hother.
    destruct (cache_get _ _ _).1; [done |]. run_effects.
    destruct (checked_json _) as [js | msg]; [| done]. run_effects.
    destruct (alpha_parse env interval limit js) as [[out |] | msg]; try done.
    run_effects. unfold cache_set. by rewrite lookup_insert_ne.
Qed.

(** ** Frames the adapters build *)

Lemma sort_values_raw_ordered rows : time_ordered (sort_values_raw rows).
Proof. apply (StronglySorted_stable_sort raw_ts_le). Qed.

Lemma StronglySorted_weaken {A} (R S : relation A) l :
  (∀ x y, R x y → S x y) → StronglySorted R l → StronglySorted S l.
Proof.
  intros HRS. induction 1 as [| x l _ IH Hx]; constructor; [done |].
  eapply Forall_impl; [done |]. intros y. apply HRS.
Qed.

Lemma resample_ohlcv_ordered w df : 0 < w → time_ordered (resample_ohlcv w df).
Proof.
  intros Hw. eapply StronglySorted_weaken; [| by apply resample_ohlcv_strict].
  unfold strictly_later, raw_ts_le. lia.
Qed.

Lemma tail_ordered limit df : time_ordered df → time_ordered (tail limit df).
Proof.
  unfold tail, time_ordered. intros Hs.
  destruct (limit <? 0).
  - rewrite <- (take_drop (Z.to_nat (- limit)) df) in Hs.
    by apply StronglySorted_app_1_r in Hs.
  - rewrite <- (take_drop (length df - Z.to_nat limit) df) in Hs.
    by apply StronglySorted_app_1_r in Hs.
Qed.

Lemma tail_length limit (df : list raw_candle) :
  0 ≤ limit → Z.of_nat (length (tail limit df)) ≤ limit.
Proof.
  intros Hl. unfold tail. destruct (Z.ltb_spec limit 0); [lia |].
  rewrite length_drop. lia.
Qed.

(** X23.  A frame that the Alpha Vantage parser returns for a limit that
    is not negative is in time order and has at most [limit] rows. *)
Theorem alpha_parse_ordered_and_limited env interval limit js df :
  0 ≤ limit →
  alpha_parse env interval limit js = Ok (Some df) →
  time_ordered df ∧ Z.of_nat (length df) ≤ limit.
Proof.
  intros Hlimit H. unfold alpha_parse in H.
  apply result_bind_ok in H as (has_note & _ & H).
  destruct has_note.
  { apply result_bind_ok in H as (note & _ & H). by repeat case_match. }
  apply result_bind_ok in H as (has_error & _ & H).
  destruct has_error.
  { by apply result_bind_ok in H as (e & _ & H). }
  destruct js as [| | | | | fields]; try done.
  destruct (find _ fields) as [[k [| | | | | series]] |]; try done.
  destruct (omap (alpha_row env) series) as [| r rows] eqn:Hrows; [done |].
  injection H as <-.
  set (df2 := if String.eqb interval "4h" then _ else _).
  assert (Hord : time_ordered df2).
  { subst df2. destruct (String.eqb interval "4h").
    - apply resample_ohlcv_ordered. unfold minute_ns. lia.
    - apply (sort_values_raw_ordered (r :: rows)). }
  destruct (Z.gtb_spec (Z.of_nat (length df2)) limit).
  - split; [by apply tail_ordered | by apply tail_length].
  - split; [done | lia].
Qed.

Lemma alpha_parse_ordered_and_limited_witness :
  time_ordered [RawCandle (Sample.midnight + minute_ns) (Some 3%Q) (Some 4%Q)
                          (Some 2%Q) (Some 3%Q) (Some 0%Q)]
  ∧ Z.of_nat (length [RawCandle (Sample.midnight + minute_ns) (Some 3%Q) (Some 4%Q)
                                (Some 2%Q) (Some 3%Q) (Some 0%Q)]) ≤ 1.
Proof.
  apply (alpha_parse_ordered_and_limited Sample.env_alpha "1h" 1 Sample.alpha_body).
  - lia.
  - vm_compute. reflexivity.
Defined.

(** X24.  A frame that the OANDA adapter builds from a reply (the cache
    holding no live entry) has at least one row and is in time order, and it
    is stored in the cache under the adapter's key. *)
Theorem oanda_fresh_frame env symbol tf count w df w' :
  cache_cold env w →
  fetch_oanda_candles env symbol tf count w = (Ok (Some df), w') →
  df ≠ [] ∧ time_ordered df
  ∧ ∃ gran ts, oanda_map_tf tf = Some gran
               ∧ _CACHE w' !! oanda_cache_key symbol gran count = Some (ts, df).
Proof.
  intros Hcold H. unfold fetch_oanda_candles in H.
  destruct (falsy_token _); [done |].
  destruct (oanda_map_tf tf) as [gran |]; [| done].
  fold (oanda_cache_key symbol gran count) in H.
  apply bind_inv_ok in H as (cached & w0 & Hget & H).
  rewrite cache_getM_run, Hcold in Hget. injection Hget as <- <-.
  apply bind_inv_ok in H as (r & w1 & _ & H).
  destruct r as [msg | status body]; [done |].
  destruct (negb _); [done |].
  destruct body as [js |]; [| done].
  destruct (oanda_rows env js) as [[| r rows] | msg]; try done.
  apply bind_inv_ok in H as ([] & w2 & Hset & H).
  injection H as <- <-. unfold cache_setM in Hset. injection Hset as <-.
  split; [| split].
  - intros Hnil.
    pose proof (insert_sorted_Permutation raw_ts_le r (sort_values_raw rows)) as Hperm.
    rewrite Hnil in Hperm. by apply Permutation_nil_cons in Hperm.
  - apply (sort_values_raw_ordered (r :: rows)).
  - exists gran. eexists. split; [done |]. cbn [_CACHE]. apply lookup_insert_eq.
Qed.

Lemma oanda_fresh_frame_witness :
  ∃ df w', fetch_oanda_candles Sample.env_oanda "OANDA:EUR_USD" "1m" 300 Sample.boot
           = (Ok (Some df), w')
           ∧ df ≠ [] ∧ time_ordered df.
Proof.
  eexists _, _. split; [vm_compute; reflexivity |].
  edestruct (oanda_fresh_frame Sample.env_oanda "OANDA:EUR_USD" "1m" 300 Sample.boot)
    as (Hne & Hord & _).
  - intros key. reflexivity.
  - vm_compute. reflexivity.
  - split; [exact Hne | exact Hord].
Defined.

(** ** The local-file path *)

(** X26.  For a symbol that no adapter serves (no client candles for the
    timeframe, no BINANCE: or OANDA: prefix, and either no gold or ALPHA:
    symbol or no Alpha Vantage key), when none of the four candidate files
    exists the timeframe is answered with the no-data Prediction after
    exactly four look-ups of the file system; the cache is not touched and
    no request is made. *)
Theorem unserved_symbol_without_file env (req : BatchRequest) symbol limit tf w :
  req_candles req ≫= (λ d, d !! tf) = None →
  startswith (upper symbol) "BINANCE:" = false →
  startswith (upper symbol) "OANDA:" = false →
  (contains "XAU" (upper symbol) || startswith (upper symbol) "ALPHA:")
    && negb (falsy_token (ALPHA_VANTAGE_KEY env)) = false →
  (∀ n p, p ∈ local_csv_candidates symbol → path_exists env n p = false) →
  process_timeframe env req symbol limit tf w
  = (Ok (no_data tf), MkWorld (_CACHE w) (4 + tick w)).
Proof.
  intros Hc Hb Ho Ha Hnone. unfold process_timeframe, resolve_source.
  rewrite Hc, Hb, Ho, Ha. unfold local_csv_candidates in *.
  cbn [first_existing]. unfold mbind, M_bind, exists_path, mret, M_ret.
  cbn [tick _CACHE].
  rewrite !Hnone by (rewrite !elem_of_cons; tauto). done.
Qed.

Lemma unserved_symbol_without_file_witness :
  process_timeframe (Sample.env_with None None Sample.offline) Sample.bare_request
                    "EURUSD" 300 "1m" Sample.boot
  = (Ok (no_data "1m"), MkWorld ∅ 4).
Proof.
  apply (unserved_symbol_without_file (Sample.env_with None None Sample.offline)
           Sample.bare_request "EURUSD" 300 "1m" Sample.boot); reflexivity.
Defined.

(** A file that has no data row: its frame is empty and its timestamp column
    is not datetime-typed.  The 1m timeframe is answered with the no-data
    Prediction; for a coarser timeframe [resample] raises and the Prediction
    carries the error. *)
Lemma header_only_file_fails_aggregation :
  (batch_predict Sample.env_header_only Sample.csv_request Sample.boot).1
  = Ok [no_data "1m"; error_prediction "5m" resample_type_error].
Proof. vm_compute. reflexivity. Qed.
